(** * panda-py motion generators: joint and Cartesian waypoint state machines

    A shallow embedding of [motion::JointMotionGenerator] and
    [motion::CartesianMotionGenerator].  Doubles are IEEE binary64 values
    (Rocq's primitive floats), [std::array<double, N>] is a list of floats,
    the waypoint [std::queue] is a list pushed at its end and popped at its
    front, [size_t] is an [N] with its wrap-around.  A generator is a record
    of its members and every member function is a function on that record;
    [step] returns the new record together with the command.

    Calls are atomic and sequential here: the mutex, and the interleaving of
    the caller's thread with the real-time thread, are not part of the
    model.  The session object behind [panda_] is kept as the value last
    bound by [start] and updated by [step].

    The external collaborators are kept abstract: the ruckig solver, the
    constants of [panda.h] and Eigen's quaternion conversions are interfaces
    (type classes), instantiated only for the concrete runs at the end. *)

From Stdlib Require Import ZArith NArith List Bool Lia.
From Stdlib Require Import Floats.PrimFloat.
From Stdlib Require Import Numbers.Cyclic.Int63.Uint63.
Import ListNotations.

Local Open Scope Z_scope.

(* Decimal literals such as 0.3 denote the nearest binary64 value, as in C++. *)
Set Warnings "-inexact-float".

(** [toStd(Vector7d::Zero())]. *)
Definition zeros7 : list float := repeat 0%float 7.

(** ** libfranka value types (the fields the generators read and write) *)
Module franka.

Module RobotState.
Record t := mk {
  q : list float;          (* measured joint positions *)
  q_d : list float;        (* commanded joint positions *)
  O_T_EE : list float;     (* measured pose, 16 doubles, column major *)
  O_T_EE_c : list float    (* commanded pose, 16 doubles, column major *)
}.
End RobotState.

Module Duration.
(** A count of milliseconds held in a [uint64_t]. *)
Record t := mk { duration_ : Z }.

Definition toMSec (d : t) : Z := duration_ d mod 2 ^ 64.

(** The unsigned 64-bit count as a double, rounded to nearest once: the two
    32-bit halves are exact doubles, the high half times 2^32 is exact, and
    their sum is rounded by the one addition. *)
Definition to_double (n : Z) : float :=
  (PrimFloat.of_uint63 (Uint63.of_Z (n / 2 ^ 32)) * 4294967296
   + PrimFloat.of_uint63 (Uint63.of_Z (n mod 2 ^ 32)))%float.

(** Seconds as a double: the count divided by 1000. *)
Definition toSec (d : t) : float :=
  (to_double (toMSec d) / 1000)%float.
End Duration.

Module JointPositions.
Record t := mk { q : list float; motion_finished : bool }.
(** [franka::JointPositions(q)]: a plain command. *)
Definition make (q : list float) : t := mk q false.
(** [franka::MotionFinished(command)]. *)
Definition MotionFinished (c : t) : t := mk (q c) true.
End JointPositions.

Module CartesianPose.
Record t := mk { O_T_EE : list float; motion_finished : bool }.
Definition make (p : list float) : t := mk p false.
Definition MotionFinished (c : t) : t := mk (O_T_EE c) true.
End CartesianPose.

End franka.

(** ** The ruckig interface (ruckig 0.14, seven degrees of freedom) *)
Module ruckig.

Inductive Result :=
| Working
| Finished
| Error
| ErrorInvalidInput
| ErrorTrajectoryDuration
| ErrorPositionalLimits
| ErrorZeroLimits
| ErrorExecutionTimeCalculation
| ErrorSynchronizationCalculation.

(** The enumerators' integer values. *)
Definition code (r : Result) : Z :=
  match r with
  | Working => 0
  | Finished => 1
  | Error => -1
  | ErrorInvalidInput => -100
  | ErrorTrajectoryDuration => -101
  | ErrorPositionalLimits => -102
  | ErrorZeroLimits => -104
  | ErrorExecutionTimeCalculation => -110
  | ErrorSynchronizationCalculation => -111
  end.

(** [==] on the enumeration. *)
Definition eqb (a b : Result) : bool := Z.eqb (code a) (code b).

(** A result that is neither [Working] nor [Finished]. *)
Definition is_error (r : Result) : bool :=
  negb (eqb r Working) && negb (eqb r Finished).

Record InputParameter := mkInput {
  current_position : list float;
  current_velocity : list float;
  current_acceleration : list float;
  target_position : list float;
  target_velocity : list float;
  target_acceleration : list float;
  max_velocity : list float;
  max_acceleration : list float;
  max_jerk : list float
}.

Record OutputParameter := mkOutput {
  new_position : list float;
  new_velocity : list float;
  new_acceleration : list float
}.

(** [output.pass_to_input(input)]: the new kinematic state becomes the
    current one; targets and limits stay. *)
Definition pass_to_input (o : OutputParameter) (i : InputParameter)
  : InputParameter :=
  mkInput (new_position o) (new_velocity o) (new_acceleration o)
          (target_position i) (target_velocity i) (target_acceleration i)
          (max_velocity i) (max_acceleration i) (max_jerk i).

Definition set_current (p v a : list float) (i : InputParameter)
  : InputParameter :=
  mkInput p v a
          (target_position i) (target_velocity i) (target_acceleration i)
          (max_velocity i) (max_acceleration i) (max_jerk i).

Definition set_target (p v a : list float) (i : InputParameter)
  : InputParameter :=
  mkInput (current_position i) (current_velocity i) (current_acceleration i)
          p v a
          (max_velocity i) (max_acceleration i) (max_jerk i).

Definition set_limits (v a j : list float) (i : InputParameter)
  : InputParameter :=
  mkInput (current_position i) (current_velocity i) (current_acceleration i)
          (target_position i) (target_velocity i) (target_acceleration i)
          v a j.

(** The solver is a black box: [Ruckig<7>::update(input, output)] reads the
    input, rewrites the output block and its own trajectory state, and
    returns a [Result].  [Otg] is everything the solver keeps between
    calls. *)
Class Solver := {
  Otg : Type;
  update : Otg -> InputParameter -> OutputParameter
           -> Result * Otg * OutputParameter
}.


End ruckig.

(** ** The robot session object *)
Module Panda.

(** The fields of [Panda] the generators touch: the three global scale
    factors and the robot state stored by [_setState]. *)
Record t := mk {
  velocity_rel : float;
  acceleration_rel : float;
  jerk_rel : float;
  state_ : option franka.RobotState.t
}.

(** Modelled from the spec: [panda.h] is not among the sources; step 1 of
    [step] records the current robot state in the session object. *)
Definition _setState (rs : franka.RobotState.t) (p : t) : t :=
  mk (velocity_rel p) (acceleration_rel p) (jerk_rel p) (Some rs).

(** The compile-time limits of [panda.h], taken as parameters. *)
Class Limits := {
  max_joint_velocity : list float;
  max_joint_acceleration : list float;
  max_joint_jerk : list float;
  max_translation_velocity : float;
  max_translation_acceleration : float;
  max_translation_jerk : float;
  max_rotation_velocity : float;
  max_rotation_acceleration : float;
  max_rotation_jerk : float
}.

End Panda.

(** ** Joint waypoints *)
Module JointMotion.

Record t := mk {
  target : list float;
  velocity_rel : float;
  acceleration_rel : float;
  jerk_rel : float
}.

(** Modelled from the spec: [joint_motion.hpp] is not among the sources; a
    target built from joint angles alone carries the default multipliers
    1.0. *)
Definition make (target : list float) : t := mk target 1 1 1.

End JointMotion.

(** ** The joint generator *)
Module JointMotionGenerator.
Section Generator.

Context {S : ruckig.Solver} {L : Panda.Limits}.

Record t := mk {
  panda_ : Panda.t;
  time_ : float;
  motion_finished_ : bool;
  waypoints_ : list JointMotion.t;
  current_waypoint_ : option JointMotion.t;
  trajectory_generator_ : ruckig.Otg;
  input_para_ : ruckig.InputParameter;
  output_para_ : ruckig.OutputParameter;
  result : ruckig.Result;
  reload_ : bool;
  keep_running_ : bool;
  current_cooldown_iteration : N
}.

Definition cooldown_iterations : N := 5.

Definition set_panda_ (v : Panda.t) (g : t) : t :=
  mk v (time_ g) (motion_finished_ g) (waypoints_ g) (current_waypoint_ g)
     (trajectory_generator_ g) (input_para_ g) (output_para_ g) (result g)
     (reload_ g) (keep_running_ g) (current_cooldown_iteration g).

Definition setTime (v : float) (g : t) : t :=
  mk (panda_ g) v (motion_finished_ g) (waypoints_ g) (current_waypoint_ g)
     (trajectory_generator_ g) (input_para_ g) (output_para_ g) (result g)
     (reload_ g) (keep_running_ g) (current_cooldown_iteration g).

Definition getTime (g : t) : float := time_ g.

Definition set_motion_finished_ (v : bool) (g : t) : t :=
  mk (panda_ g) (time_ g) v (waypoints_ g) (current_waypoint_ g)
     (trajectory_generator_ g) (input_para_ g) (output_para_ g) (result g)
     (reload_ g) (keep_running_ g) (current_cooldown_iteration g).

Definition set_waypoints_ (v : list JointMotion.t) (g : t) : t :=
  mk (panda_ g) (time_ g) (motion_finished_ g) v (current_waypoint_ g)
     (trajectory_generator_ g) (input_para_ g) (output_para_ g) (result g)
     (reload_ g) (keep_running_ g) (current_cooldown_iteration g).

Definition set_current_waypoint_ (v : option JointMotion.t) (g : t) : t :=
  mk (panda_ g) (time_ g) (motion_finished_ g) (waypoints_ g) v
     (trajectory_generator_ g) (input_para_ g) (output_para_ g) (result g)
     (reload_ g) (keep_running_ g) (current_cooldown_iteration g).

Definition set_input_para_ (v : ruckig.InputParameter) (g : t) : t :=
  mk (panda_ g) (time_ g) (motion_finished_ g) (waypoints_ g)
     (current_waypoint_ g) (trajectory_generator_ g) v (output_para_ g)
     (result g) (reload_ g) (keep_running_ g) (current_cooldown_iteration g).

(** The three things one solver call writes. *)
Definition set_solved (r : ruckig.Result * ruckig.Otg * ruckig.OutputParameter)
           (g : t) : t :=
  mk (panda_ g) (time_ g) (motion_finished_ g) (waypoints_ g)
     (current_waypoint_ g) (snd (fst r)) (input_para_ g) (snd r)
     (fst (fst r)) (reload_ g) (keep_running_ g)
     (current_cooldown_iteration g).

Definition set_reload_ (v : bool) (g : t) : t :=
  mk (panda_ g) (time_ g) (motion_finished_ g) (waypoints_ g)
     (current_waypoint_ g) (trajectory_generator_ g) (input_para_ g)
     (output_para_ g) (result g) v (keep_running_ g)
     (current_cooldown_iteration g).

Definition set_current_cooldown_iteration (v : N) (g : t) : t :=
  mk (panda_ g) (time_ g) (motion_finished_ g) (waypoints_ g)
     (current_waypoint_ g) (trajectory_generator_ g) (input_para_ g)
     (output_para_ g) (result g) (reload_ g) (keep_running_ g) v.

(** [current_cooldown_iteration += 1] on a [size_t]. *)
Definition bump_cooldown (g : t) : t :=
  set_current_cooldown_iteration
    ((current_cooldown_iteration g + 1) mod 2 ^ 64)%N g.

Definition addWaypoint (waypoint : JointMotion.t) (g : t) : t :=
  set_reload_ true (set_waypoints_ (waypoints_ g ++ [waypoint]) g).

Definition addWaypoints (waypoints : list JointMotion.t) (g : t) : t :=
  set_reload_ true
    (fold_left (fun g' w => set_waypoints_ (waypoints_ g' ++ [w]) g')
               waypoints g).

(** [while (!waypoints_.empty()) waypoints_.pop();] one pop per element. *)
Fixpoint pop_all (ws : list JointMotion.t) : list JointMotion.t :=
  match ws with
  | [] => []
  | _ :: ws' => pop_all ws'
  end.

Definition clearWaypoints (g : t) : t :=
  set_reload_ true (set_waypoints_ (pop_all (waypoints_ g)) g).

Definition setProfile (velocity_rel acceleration_rel jerk_rel : float)
           (g : t) : t :=
  let p := panda_ g in
  set_input_para_
    (ruckig.set_limits
       (map (fun m => m * Panda.velocity_rel p * velocity_rel)%float
            Panda.max_joint_velocity)
       (map (fun m => 0.3 * m * Panda.acceleration_rel p * acceleration_rel)%float
            Panda.max_joint_acceleration)
       (map (fun m => 0.3 * m * Panda.jerk_rel p * jerk_rel)%float
            Panda.max_joint_jerk)
       (input_para_ g)) g.

Definition setInputCurrent (robot_state : franka.RobotState.t) (g : t) : t :=
  set_input_para_
    (ruckig.set_current (franka.RobotState.q robot_state) zeros7 zeros7
                        (input_para_ g)) g.

Definition setInputTarget (waypoint : JointMotion.t) (g : t) : t :=
  setProfile (JointMotion.velocity_rel waypoint)
             (JointMotion.acceleration_rel waypoint)
             (JointMotion.jerk_rel waypoint)
    (set_input_para_
       (ruckig.set_target (JointMotion.target waypoint) zeros7 zeros7
                          (input_para_ g)) g).

Definition loadNextWaypoint (robot_state : franka.RobotState.t) (g : t) : t :=
  match waypoints_ g with
  | [] =>
      let target := JointMotion.make (franka.RobotState.q_d robot_state) in
      setInputTarget target (set_current_waypoint_ (Some target) g)
  | front :: rest =>
      setInputTarget front
        (set_waypoints_ rest (set_current_waypoint_ (Some front) g))
  end.

Definition start (robot : Panda.t) (robot_state : franka.RobotState.t)
           (g : t) : t :=
  let g := set_panda_ robot g in
  let g := set_reload_ true g in
  let g := set_motion_finished_ false g in
  let g := setInputCurrent robot_state g in
  let g := set_input_para_
             (ruckig.set_target (franka.RobotState.q_d robot_state)
                                zeros7 zeros7 (input_para_ g)) g in
  setProfile 1 1 1 g.

Definition stop (g : t) : t := set_motion_finished_ true g.

Definition isRunning (g : t) : bool := negb (motion_finished_ g).

(** [std::max<int>(period.toMSec(), 1)]: the unsigned count is first
    narrowed to a 32-bit [int]. *)
Definition to_int (z : Z) : Z := (z + 2 ^ 31) mod 2 ^ 32 - 2 ^ 31.

Definition steps_of (period : franka.Duration.t) : Z :=
  Z.max (to_int (franka.Duration.toMSec period)) 1.

(** The body of the [for] loop, in its two halves.  First the
  [if (reload_)] block. *)
Definition reload_if_requested (robot_state : franka.RobotState.t) (g : t)
  : t :=
  if reload_ g
  then set_reload_ false (loadNextWaypoint robot_state g)
  else g.

(** Then the solver call and the classification of its result.  [Some c] is
    a [return c] from inside the loop; [None] falls through to
    [pass_to_input] and the next iteration. *)
Definition solve_and_classify (g : t)
  : t * option franka.JointPositions.t :=
  let g := set_solved
             (ruckig.update (trajectory_generator_ g) (input_para_ g)
                            (output_para_ g)) g in
  let out := franka.JointPositions.make
               (ruckig.new_position (output_para_ g)) in
  let pass g :=
    set_input_para_
      (ruckig.pass_to_input (output_para_ g) (input_para_ g)) g in
  if ruckig.eqb (result g) ruckig.Finished then
    match waypoints_ g with
    | _ :: _ => (pass (set_reload_ true g), None)
    | [] =>
        if negb (keep_running_ g) then
          if (current_cooldown_iteration g <? cooldown_iterations)%N
          then (bump_cooldown g, Some out)
          else (set_motion_finished_ true g,
                Some (franka.JointPositions.MotionFinished out))
        else (pass g, None)
    end
  else if ruckig.eqb (result g) ruckig.Error then
    (set_motion_finished_ true g,
     Some (franka.JointPositions.MotionFinished out))
  else (pass g, None).

Definition sub_step (robot_state : franka.RobotState.t) (g : t)
  : t * option franka.JointPositions.t :=
  solve_and_classify (reload_if_requested robot_state g).

(** The [for] loop with [n] iterations left; falling out of the loop returns
    the last output as a plain command. *)
Fixpoint step_loop (n : nat) (robot_state : franka.RobotState.t) (g : t)
  : t * franka.JointPositions.t :=
  match n with
  | O => (g, franka.JointPositions.make (ruckig.new_position (output_para_ g)))
  | Datatypes.S n' =>
      match sub_step robot_state g with
      | (g', Some c) => (g', c)
      | (g', None) => step_loop n' robot_state g'
      end
  end.

(** The two bookkeeping statements that open [step]: the session object
    stores the robot state and the clock advances by the period. *)
Definition tick (robot_state : franka.RobotState.t)
           (period : franka.Duration.t) (g : t) : t :=
  let g := set_panda_ (Panda._setState robot_state (panda_ g)) g in
  setTime (getTime g + franka.Duration.toSec period)%float g.

Definition step (robot_state : franka.RobotState.t)
           (period : franka.Duration.t) (g : t)
  : t * franka.JointPositions.t :=
  let g := tick robot_state period g in
  let steps := steps_of period in
  if motion_finished_ g then
    let held := franka.JointPositions.make
                  (franka.RobotState.q_d robot_state) in
    if (current_cooldown_iteration g <? cooldown_iterations)%N
    then (bump_cooldown g, held)
    else (g, franka.JointPositions.MotionFinished held)
  else step_loop (Z.to_nat steps) robot_state g.

(** The calls a generator receives from its owner and from the real-time
    link, as data; [run] performs them in order and collects what each
    [step] returned. *)
Inductive Action :=
| AddWaypoint (waypoint : JointMotion.t)
| AddWaypoints (waypoints : list JointMotion.t)
| ClearWaypoints
| Start (robot : Panda.t) (robot_state : franka.RobotState.t)
| Stop
| Step (robot_state : franka.RobotState.t) (period : franka.Duration.t).

Definition is_stop (a : Action) : bool :=
  match a with Stop => true | _ => false end.

Fixpoint run (acts : list Action) (g : t) : t * list franka.JointPositions.t :=
  match acts with
  | [] => (g, [])
  | AddWaypoint w :: rest => run rest (addWaypoint w g)
  | AddWaypoints ws :: rest => run rest (addWaypoints ws g)
  | ClearWaypoints :: rest => run rest (clearWaypoints g)
  | Start robot rs :: rest => run rest (start robot rs g)
  | Stop :: rest => run rest (stop g)
  | Step rs period :: rest =>
      let (g', c) := step rs period g in
      let (g'', cs) := run rest g' in
      (g'', c :: cs)
  end.

(** A run made of ticks only. *)
Definition ticks_only (ticks : list (franka.RobotState.t * franka.Duration.t))
  : list Action :=
  map (fun tk => Step (fst tk) (snd tk)) ticks.

(** The cooldown ticks a generator still has in its budget. *)
Definition cooldown_left (g : t) : nat :=
  N.to_nat (cooldown_iterations - current_cooldown_iteration g).

(** The state in which the loop has just seen the last segment complete:
    the solver said [Finished], nothing is queued and the generator is not
    asked to keep running. *)
Definition at_completion (g : t) : bool :=
  ruckig.eqb (result g) ruckig.Finished
  && match waypoints_ g with [] => true | _ :: _ => false end
  && negb (keep_running_ g).

Definition is_start (a : Action) : bool :=
  match a with Start _ _ => true | _ => false end.

(** The target handed to the solver is a state of rest. *)
Definition at_rest (g : t) : Prop :=
  ruckig.target_velocity (input_para_ g) = zeros7
  /\ ruckig.target_acceleration (input_para_ g) = zeros7.

(** The solver's latest output is what its next call starts from. *)
Definition passed_through (g : t) : Prop :=
  ruckig.current_position (input_para_ g)
  = ruckig.new_position (output_para_ g)
  /\ ruckig.current_velocity (input_para_ g)
     = ruckig.new_velocity (output_para_ g)
  /\ ruckig.current_acceleration (input_para_ g)
     = ruckig.new_acceleration (output_para_ g).

(** The solver says [Finished] on the call each of these ticks makes on a
    generator with no reload pending, for as long as the generator has not
    finished. *)
Fixpoint finished_on_each
         (ticks : list (franka.RobotState.t * franka.Duration.t)) (g : t)
  : Prop :=
  match ticks with
  | [] => True
  | tk :: rest =>
      (motion_finished_ g = false ->
       fst (fst (ruckig.update (trajectory_generator_ g) (input_para_ g)
                               (output_para_ g))) = ruckig.Finished)
      /\ finished_on_each rest (fst (step (fst tk) (snd tk) g))
  end.

End Generator.
End JointMotionGenerator.

(** ** The Eigen geometry the Cartesian generator uses *)
Module Eigen.

Record Vector3d := vec3 { vx : float; vy : float; vz : float }.

(** Row [i], column [j] is [mij]. *)
Record Matrix3d := mat3 {
  m00 : float; m01 : float; m02 : float;
  m10 : float; m11 : float; m12 : float;
  m20 : float; m21 : float; m22 : float
}.

Record Quaterniond := quat { x : float; y : float; z : float; w : float }.

(** A 4x4 transform: rotation block, translation column and last row. *)
Record Isometry3d := iso {
  linear : Matrix3d;
  translation : Vector3d;
  last_row : list float
}.

Definition rotation (p : Isometry3d) : Matrix3d := linear p.

Definition at_ (d : list float) (i : nat) : float := nth i d 0%float.

(** [Isometry3d(Matrix4d::Map(data))] on 16 doubles in column-major order:
    entry (r, c) is [data[4 c + r]]. *)
Definition Map (d : list float) : Isometry3d :=
  iso (mat3 (at_ d 0) (at_ d 4) (at_ d 8)
            (at_ d 1) (at_ d 5) (at_ d 9)
            (at_ d 2) (at_ d 6) (at_ d 10))
      (vec3 (at_ d 12) (at_ d 13) (at_ d 14))
      [at_ d 3; at_ d 7; at_ d 11; at_ d 15].

(** [pose.matrix()] written back in column-major order. *)
Definition matrix (p : Isometry3d) : list float :=
  let a := linear p in
  let t := translation p in
  let b := last_row p in
  [m00 a; m10 a; m20 a; at_ b 0;
   m01 a; m11 a; m21 a; at_ b 1;
   m02 a; m12 a; m22 a; at_ b 2;
   vx t; vy t; vz t; at_ b 3].

Local Open Scope float_scope.

(** Products; each dot product is summed left to right. *)
Definition mul3 (a b : Matrix3d) : Matrix3d :=
  mat3 (m00 a * m00 b + m01 a * m10 b + m02 a * m20 b)
       (m00 a * m01 b + m01 a * m11 b + m02 a * m21 b)
       (m00 a * m02 b + m01 a * m12 b + m02 a * m22 b)
       (m10 a * m00 b + m11 a * m10 b + m12 a * m20 b)
       (m10 a * m01 b + m11 a * m11 b + m12 a * m21 b)
       (m10 a * m02 b + m11 a * m12 b + m12 a * m22 b)
       (m20 a * m00 b + m21 a * m10 b + m22 a * m20 b)
       (m20 a * m01 b + m21 a * m11 b + m22 a * m21 b)
       (m20 a * m02 b + m21 a * m12 b + m22 a * m22 b).

Definition mulv (a : Matrix3d) (v : Vector3d) : Vector3d :=
  vec3 (m00 a * vx v + m01 a * vy v + m02 a * vz v)
       (m10 a * vx v + m11 a * vy v + m12 a * vz v)
       (m20 a * vx v + m21 a * vy v + m22 a * vz v).

Definition addv (u v : Vector3d) : Vector3d :=
  vec3 (vx u + vx v) (vy u + vy v) (vz u + vz v).

(** [lhs * rhs] of two isometries: rotation blocks multiply, the right
    translation is rotated and shifted, the last row is reset to
    (0, 0, 0, 1). *)
Definition compose (lhs rhs : Isometry3d) : Isometry3d :=
  iso (mul3 (linear lhs) (linear rhs))
      (addv (mulv (linear lhs) (translation rhs)) (translation lhs))
      [0; 0; 0; 1].

(** Eigen's conversions between rotation matrices and quaternions, and
    quaternion normalisation, are library code kept abstract. *)
Class Geometry := {
  Quaterniond_of_rotation : Matrix3d -> Quaterniond;
  normalize : Quaterniond -> Quaterniond;
  toRotationMatrix : Quaterniond -> Matrix3d
}.

End Eigen.

(** ** Cartesian waypoints *)
Module ReferenceFrame.
Inductive t := GLOBAL | RELATIVE.

Definition eqb (a b : t) : bool :=
  match a, b with
  | GLOBAL, GLOBAL | RELATIVE, RELATIVE => true
  | _, _ => false
  end.
End ReferenceFrame.

Module CartesianMotion.

Record t := mk {
  target : Eigen.Isometry3d;
  reference_frame : ReferenceFrame.t;
  velocity_rel : float;
  acceleration_rel : float;
  jerk_rel : float
}.

(** Modelled from the spec: [cartesian_motion.hpp] is not among the
    sources; a target built from a pose alone is interpreted in the base
    frame and carries the default multipliers 1.0. *)
Definition make (target : Eigen.Isometry3d) : t :=
  mk target ReferenceFrame.GLOBAL 1 1 1.

End CartesianMotion.

(** The 7-element kinematic vector of a pose: translation, then the
    quaternion as x, y, z, w. *)
Definition pose7 (t : Eigen.Vector3d) (q : Eigen.Quaterniond) : list float :=
  [Eigen.vx t; Eigen.vy t; Eigen.vz t;
   Eigen.x q; Eigen.y q; Eigen.z q; Eigen.w q].

(** ** The Cartesian generator *)
Module CartesianMotionGenerator.
Section Generator.

Context {S : ruckig.Solver} {L : Panda.Limits} {E : Eigen.Geometry}.

Record t := mk {
  panda_ : Panda.t;
  time_ : float;
  motion_finished_ : bool;
  waypoints_ : list CartesianMotion.t;
  current_waypoint_ : option CartesianMotion.t;
  trajectory_generator_ : ruckig.Otg;
  input_para_ : ruckig.InputParameter;
  output_para_ : ruckig.OutputParameter;
  result : ruckig.Result;
  reload_ : bool;
  keep_running_ : bool;
  current_cooldown_iteration : N
}.

Definition cooldown_iterations : N := 5.

Definition set_panda_ (v : Panda.t) (g : t) : t :=
  mk v (time_ g) (motion_finished_ g) (waypoints_ g) (current_waypoint_ g)
     (trajectory_generator_ g) (input_para_ g) (output_para_ g) (result g)
     (reload_ g) (keep_running_ g) (current_cooldown_iteration g).

Definition setTime (v : float) (g : t) : t :=
  mk (panda_ g) v (motion_finished_ g) (waypoints_ g) (current_waypoint_ g)
     (trajectory_generator_ g) (input_para_ g) (output_para_ g) (result g)
     (reload_ g) (keep_running_ g) (current_cooldown_iteration g).

Definition getTime (g : t) : float := time_ g.

Definition set_motion_finished_ (v : bool) (g : t) : t :=
  mk (panda_ g) (time_ g) v (waypoints_ g) (current_waypoint_ g)
     (trajectory_generator_ g) (input_para_ g) (output_para_ g) (result g)
     (reload_ g) (keep_running_ g) (current_cooldown_iteration g).

Definition set_waypoints_ (v : list CartesianMotion.t) (g : t) : t :=
  mk (panda_ g) (time_ g) (motion_finished_ g) v (current_waypoint_ g)
     (trajectory_generator_ g) (input_para_ g) (output_para_ g) (result g)
     (reload_ g) (keep_running_ g) (current_cooldown_iteration g).

Definition set_current_waypoint_ (v : option CartesianMotion.t) (g : t) : t :=
  mk (panda_ g) (time_ g) (motion_finished_ g) (waypoints_ g) v
     (trajectory_generator_ g) (input_para_ g) (output_para_ g) (result g)
     (reload_ g) (keep_running_ g) (current_cooldown_iteration g).

Definition set_input_para_ (v : ruckig.InputParameter) (g : t) : t :=
  mk (panda_ g) (time_ g) (motion_finished_ g) (waypoints_ g)
     (current_waypoint_ g) (trajectory_generator_ g) v (output_para_ g)
     (result g) (reload_ g) (keep_running_ g) (current_cooldown_iteration g).

Definition set_solved (r : ruckig.Result * ruckig.Otg * ruckig.OutputParameter)
           (g : t) : t :=
  mk (panda_ g) (time_ g) (motion_finished_ g) (waypoints_ g)
     (current_waypoint_ g) (snd (fst r)) (input_para_ g) (snd r)
     (fst (fst r)) (reload_ g) (keep_running_ g)
     (current_cooldown_iteration g).

Definition set_reload_ (v : bool) (g : t) : t :=
  mk (panda_ g) (time_ g) (motion_finished_ g) (waypoints_ g)
     (current_waypoint_ g) (trajectory_generator_ g) (input_para_ g)
     (output_para_ g) (result g) v (keep_running_ g)
     (current_cooldown_iteration g).

Definition set_current_cooldown_iteration (v : N) (g : t) : t :=
  mk (panda_ g) (time_ g) (motion_finished_ g) (waypoints_ g)
     (current_waypoint_ g) (trajectory_generator_ g) (input_para_ g)
     (output_para_ g) (result g) (reload_ g) (keep_running_ g) v.

Definition bump_cooldown (g : t) : t :=
  set_current_cooldown_iteration
    ((current_cooldown_iteration g + 1) mod 2 ^ 64)%N g.

Definition addWaypoint (waypoint : CartesianMotion.t) (g : t) : t :=
  set_reload_ true (set_waypoints_ (waypoints_ g ++ [waypoint]) g).

Definition addWaypoints (waypoints : list CartesianMotion.t) (g : t) : t :=
  set_reload_ true
    (fold_left (fun g' w => set_waypoints_ (waypoints_ g' ++ [w]) g')
               waypoints g).

Fixpoint pop_all (ws : list CartesianMotion.t) : list CartesianMotion.t :=
  match ws with
  | [] => []
  | _ :: ws' => pop_all ws'
  end.

Definition clearWaypoints (g : t) : t :=
  set_reload_ true (set_waypoints_ (pop_all (waypoints_ g)) g).

(** Three translation axes, then four quaternion components. *)
Definition setProfile (velocity_rel acceleration_rel jerk_rel : float)
           (g : t) : t :=
  let p := panda_ g in
  let translation_factor := 0.4%float in
  let derivative_factor := 0.4%float in
  let quat_factor := 0.5%float in
  set_input_para_
    (ruckig.set_limits
       (repeat (0.8 * translation_factor * Panda.max_translation_velocity
                * Panda.velocity_rel p * velocity_rel)%float 3
        ++ repeat (quat_factor * Panda.max_rotation_velocity
                   * Panda.velocity_rel p * velocity_rel)%float 4)
       (repeat (0.3 * translation_factor * derivative_factor
                * Panda.max_translation_acceleration
                * Panda.acceleration_rel p * acceleration_rel)%float 3
        ++ repeat (quat_factor * 0.3 * Panda.max_rotation_acceleration
                   * Panda.acceleration_rel p * acceleration_rel)%float 4)
       (repeat (0.3 * translation_factor * derivative_factor
                * Panda.max_translation_jerk
                * Panda.jerk_rel p * jerk_rel)%float 3
        ++ repeat (quat_factor * 0.3 * Panda.max_rotation_jerk
                   * Panda.jerk_rel p * jerk_rel)%float 4)
       (input_para_ g)) g.

Definition setInputCurrent (robot_state : franka.RobotState.t) (g : t) : t :=
  let X_WE := Eigen.Map (franka.RobotState.O_T_EE robot_state) in
  let translation := Eigen.translation X_WE in
  let q := Eigen.Quaterniond_of_rotation (Eigen.rotation X_WE) in
  set_input_para_
    (ruckig.set_current (pose7 translation q) zeros7 zeros7 (input_para_ g)) g.

(** The pose a waypoint stands for once its reference frame is resolved
    against the robot state handed to this tick. *)
Definition resolve (robot_state : franka.RobotState.t)
           (waypoint : CartesianMotion.t) : Eigen.Isometry3d :=
  if ReferenceFrame.eqb (CartesianMotion.reference_frame waypoint)
                        ReferenceFrame.RELATIVE
  then Eigen.compose (Eigen.Map (franka.RobotState.O_T_EE robot_state))
                     (CartesianMotion.target waypoint)
  else CartesianMotion.target waypoint.

(** The seven numbers written to [target_position]: the translation of a
    pose and its rotation as a normalised quaternion. *)
Definition target_vector (X_WE_target : Eigen.Isometry3d) : list float :=
  let translation := Eigen.translation X_WE_target in
  let q := Eigen.normalize
             (Eigen.Quaterniond_of_rotation (Eigen.rotation X_WE_target)) in
  pose7 translation q.

Definition setInputTarget (robot_state : franka.RobotState.t)
           (waypoint : CartesianMotion.t) (g : t) : t :=
  let X_WE_target := resolve robot_state waypoint in
  setProfile (CartesianMotion.velocity_rel waypoint)
             (CartesianMotion.acceleration_rel waypoint)
             (CartesianMotion.jerk_rel waypoint)
    (set_input_para_
       (ruckig.set_target (target_vector X_WE_target) zeros7 zeros7
                          (input_para_ g)) g).

Definition loadNextWaypoint (robot_state : franka.RobotState.t) (g : t) : t :=
  match waypoints_ g with
  | [] =>
      let X_WE := Eigen.Map (franka.RobotState.O_T_EE_c robot_state) in
      let target := CartesianMotion.make X_WE in
      setInputTarget robot_state target
        (set_current_waypoint_ (Some target) g)
  | front :: rest =>
      setInputTarget robot_state front
        (set_waypoints_ rest (set_current_waypoint_ (Some front) g))
  end.

Definition getPoseFromOutput (robot_state : franka.RobotState.t)
           (output : ruckig.OutputParameter) : franka.CartesianPose.t :=
  let pose := Eigen.Map (franka.RobotState.O_T_EE_c robot_state) in
  let np := ruckig.new_position output in
  let q := Eigen.normalize
             (Eigen.quat (Eigen.at_ np 3) (Eigen.at_ np 4) (Eigen.at_ np 5)
                         (Eigen.at_ np 6)) in
  franka.CartesianPose.make
    (Eigen.matrix
       (Eigen.iso (Eigen.toRotationMatrix q)
                  (Eigen.vec3 (Eigen.at_ np 0) (Eigen.at_ np 1) (Eigen.at_ np 2))
                  (Eigen.last_row pose))).

Definition start (robot : Panda.t) (robot_state : franka.RobotState.t)
           (g : t) : t :=
  let g := set_panda_ robot g in
  let g := set_reload_ true g in
  let g := set_motion_finished_ false g in
  let g := setInputCurrent robot_state g in
  let O_T_EE := Eigen.Map (franka.RobotState.O_T_EE robot_state) in
  let translation := Eigen.translation O_T_EE in
  let quat := Eigen.Quaterniond_of_rotation (Eigen.rotation O_T_EE) in
  let g := set_input_para_
             (ruckig.set_target (pose7 translation quat) zeros7 zeros7
                                (input_para_ g)) g in
  setProfile 1 1 1 g.

Definition stop (g : t) : t := set_motion_finished_ true g.

Definition isRunning (g : t) : bool := negb (motion_finished_ g).

Definition to_int (z : Z) : Z := (z + 2 ^ 31) mod 2 ^ 32 - 2 ^ 31.

Definition steps_of (period : franka.Duration.t) : Z :=
  Z.max (to_int (franka.Duration.toMSec period)) 1.

Definition reload_if_requested (robot_state : franka.RobotState.t) (g : t)
  : t :=
  if reload_ g
  then set_reload_ false (loadNextWaypoint robot_state g)
  else g.

Definition solve_and_classify (robot_state : franka.RobotState.t) (g : t)
  : t * option franka.CartesianPose.t :=
  let g := set_solved
             (ruckig.update (trajectory_generator_ g) (input_para_ g)
                            (output_para_ g)) g in
  let pass g :=
    set_input_para_
      (ruckig.pass_to_input (output_para_ g) (input_para_ g)) g in
  if ruckig.eqb (result g) ruckig.Finished then
    match waypoints_ g with
    | _ :: _ => (pass (set_reload_ true g), None)
    | [] =>
        if negb (keep_running_ g) then
          if (current_cooldown_iteration g <? cooldown_iterations)%N
          then (bump_cooldown g,
                Some (getPoseFromOutput robot_state (output_para_ g)))
          else (set_motion_finished_ true g,
                Some (franka.CartesianPose.MotionFinished
                        (getPoseFromOutput robot_state (output_para_ g))))
        else (pass g, None)
    end
  else if negb (ruckig.eqb (result g) ruckig.Working) then
    (set_motion_finished_ true g,
     Some (franka.CartesianPose.MotionFinished
             (franka.CartesianPose.make
                (franka.RobotState.O_T_EE_c robot_state))))
  else (pass g, None).

Definition sub_step (robot_state : franka.RobotState.t) (g : t)
  : t * option franka.CartesianPose.t :=
  solve_and_classify robot_state (reload_if_requested robot_state g).

Fixpoint step_loop (n : nat) (robot_state : franka.RobotState.t) (g : t)
  : t * franka.CartesianPose.t :=
  match n with
  | O => (g, getPoseFromOutput robot_state (output_para_ g))
  | Datatypes.S n' =>
      match sub_step robot_state g with
      | (g', Some c) => (g', c)
      | (g', None) => step_loop n' robot_state g'
      end
  end.

(** The two bookkeeping statements that open [step]: the session object
    stores the robot state and the clock advances by the period. *)
Definition tick (robot_state : franka.RobotState.t)
           (period : franka.Duration.t) (g : t) : t :=
  let g := set_panda_ (Panda._setState robot_state (panda_ g)) g in
  setTime (getTime g + franka.Duration.toSec period)%float g.

Definition step (robot_state : franka.RobotState.t)
           (period : franka.Duration.t) (g : t)
  : t * franka.CartesianPose.t :=
  let g := tick robot_state period g in
  let steps := steps_of period in
  if motion_finished_ g then
    let held := franka.CartesianPose.make
                  (franka.RobotState.O_T_EE_c robot_state) in
    if (current_cooldown_iteration g <? cooldown_iterations)%N
    then (bump_cooldown g, held)
    else (g, franka.CartesianPose.MotionFinished held)
  else step_loop (Z.to_nat steps) robot_state g.

(** The calls a generator receives from its owner and from the real-time
    link, as data; [run] performs them in order and collects what each
    [step] returned. *)
Inductive Action :=
| AddWaypoint (waypoint : CartesianMotion.t)
| AddWaypoints (waypoints : list CartesianMotion.t)
| ClearWaypoints
| Start (robot : Panda.t) (robot_state : franka.RobotState.t)
| Stop
| Step (robot_state : franka.RobotState.t) (period : franka.Duration.t).

Definition is_stop (a : Action) : bool :=
  match a with Stop => true | _ => false end.

Fixpoint run (acts : list Action) (g : t) : t * list franka.CartesianPose.t :=
  match acts with
  | [] => (g, [])
  | AddWaypoint w :: rest => run rest (addWaypoint w g)
  | AddWaypoints ws :: rest => run rest (addWaypoints ws g)
  | ClearWaypoints :: rest => run rest (clearWaypoints g)
  | Start robot rs :: rest => run rest (start robot rs g)
  | Stop :: rest => run rest (stop g)
  | Step rs period :: rest =>
      let (g', c) := step rs period g in
      let (g'', cs) := run rest g' in
      (g'', c :: cs)
  end.

(** A run made of ticks only. *)
Definition ticks_only (ticks : list (franka.RobotState.t * franka.Duration.t))
  : list Action :=
  map (fun tk => Step (fst tk) (snd tk)) ticks.

(** The cooldown ticks a generator still has in its budget. *)
Definition cooldown_left (g : t) : nat :=
  N.to_nat (cooldown_iterations - current_cooldown_iteration g).

(** The state in which the loop has just seen the last segment complete:
    the solver said [Finished], nothing is queued and the generator is not
    asked to keep running. *)
Definition at_completion (g : t) : bool :=
  ruckig.eqb (result g) ruckig.Finished
  && match waypoints_ g with [] => true | _ :: _ => false end
  && negb (keep_running_ g).

Definition is_start (a : Action) : bool :=
  match a with Start _ _ => true | _ => false end.

(** The target handed to the solver is a state of rest. *)
Definition at_rest (g : t) : Prop :=
  ruckig.target_velocity (input_para_ g) = zeros7
  /\ ruckig.target_acceleration (input_para_ g) = zeros7.

(** The solver's latest output is what its next call starts from. *)
Definition passed_through (g : t) : Prop :=
  ruckig.current_position (input_para_ g)
  = ruckig.new_position (output_para_ g)
  /\ ruckig.current_velocity (input_para_ g)
     = ruckig.new_velocity (output_para_ g)
  /\ ruckig.current_acceleration (input_para_ g)
     = ruckig.new_acceleration (output_para_ g).

(** The solver says [Finished] on the call each of these ticks makes on a
    generator with no reload pending, for as long as the generator has not
    finished. *)
Fixpoint finished_on_each
         (ticks : list (franka.RobotState.t * franka.Duration.t)) (g : t)
  : Prop :=
  match ticks with
  | [] => True
  | tk :: rest =>
      (motion_finished_ g = false ->
       fst (fst (ruckig.update (trajectory_generator_ g) (input_para_ g)
                               (output_para_ g))) = ruckig.Finished)
      /\ finished_on_each rest (fst (step (fst tk) (snd tk) g))
  end.

End Generator.
End CartesianMotionGenerator.

(** ** Concrete collaborators for runs

    A stand-in solver, the Franka limits and Eigen's conversions written out
    on doubles, used where a run has to be evaluated. *)
Module Demo.

Local Open Scope float_scope.

Fixpoint same (a b : list float) : bool :=
  match a, b with
  | [], [] => true
  | u :: a', v :: b' => PrimFloat.eqb u v && same a' b'
  | _, _ => false
  end.

(** No limit is negative or NaN. *)
Definition all_valid (l : list float) : bool :=
  forallb (fun v => PrimFloat.leb 0 v) l.

(** One update towards the target: every axis moves by at most a quarter
    unit. *)
Definition toward (c t : float) : float :=
  if PrimFloat.ltb 0.25 (t - c) then c + 0.25
  else if PrimFloat.ltb 0.25 (c - t) then c - 0.25
  else t.

Fixpoint towards (cur tgt : list float) : list float :=
  match cur, tgt with
  | c :: cur', t :: tgt' => toward c t :: towards cur' tgt'
  | _, _ => []
  end.

Definition advance (i : ruckig.InputParameter)
  : ruckig.Result * unit * ruckig.OutputParameter :=
  (if same (ruckig.current_position i) (ruckig.target_position i)
   then ruckig.Finished else ruckig.Working,
   tt,
   ruckig.mkOutput
     (towards (ruckig.current_position i) (ruckig.target_position i))
     zeros7 zeros7).

(** A stand-in solver: it reports [Finished] once the current position is
    the target and otherwise moves towards it. *)
Definition unchecked_solver : ruckig.Solver :=
  {| ruckig.Otg := unit;
     ruckig.update := fun _ i _ => advance i |}.

(** The same solver behind the input validation ruckig performs: a
    negative limit is an invalid input and leaves the output as it was. *)
Definition solver : ruckig.Solver :=
  {| ruckig.Otg := unit;
     ruckig.update := fun _ i o =>
       if all_valid (ruckig.max_velocity i)
          && all_valid (ruckig.max_acceleration i)
          && all_valid (ruckig.max_jerk i)
       then advance i
       else (ruckig.ErrorInvalidInput, tt, o) |}.

Definition limits : Panda.Limits :=
  {| Panda.max_joint_velocity := [2.175; 2.175; 2.175; 2.175; 2.61; 2.61; 2.61];
     Panda.max_joint_acceleration := [15; 7.5; 10; 12.5; 15; 20; 20];
     Panda.max_joint_jerk := [7500; 3750; 5000; 6250; 7500; 10000; 10000];
     Panda.max_translation_velocity := 1.7;
     Panda.max_translation_acceleration := 13;
     Panda.max_translation_jerk := 6500;
     Panda.max_rotation_velocity := 2.5;
     Panda.max_rotation_acceleration := 25;
     Panda.max_rotation_jerk := 12500 |}.

(** [Quaterniond(Matrix3d)]: the branch on the trace and on the largest
    diagonal entry. *)
Definition Quaterniond_of_rotation (m : Eigen.Matrix3d) : Eigen.Quaterniond :=
  let tr := Eigen.m00 m + Eigen.m11 m + Eigen.m22 m in
  if PrimFloat.ltb 0 tr then
    let t := PrimFloat.sqrt (tr + 1) in
    let s := 0.5 / t in
    Eigen.quat ((Eigen.m21 m - Eigen.m12 m) * s)
               ((Eigen.m02 m - Eigen.m20 m) * s)
               ((Eigen.m10 m - Eigen.m01 m) * s)
               (0.5 * t)
  else
    let i := if PrimFloat.ltb (Eigen.m00 m) (Eigen.m11 m) then 1%nat else 0%nat in
    let mii := if PrimFloat.ltb (Eigen.m00 m) (Eigen.m11 m)
               then Eigen.m11 m else Eigen.m00 m in
    let i := if PrimFloat.ltb mii (Eigen.m22 m) then 2%nat else i in
    match i with
    | 0%nat =>
        let t := PrimFloat.sqrt (Eigen.m00 m - Eigen.m11 m - Eigen.m22 m + 1) in
        let s := 0.5 / t in
        Eigen.quat (0.5 * t)
                   ((Eigen.m10 m + Eigen.m01 m) * s)
                   ((Eigen.m20 m + Eigen.m02 m) * s)
                   ((Eigen.m21 m - Eigen.m12 m) * s)
    | 1%nat =>
        let t := PrimFloat.sqrt (Eigen.m11 m - Eigen.m22 m - Eigen.m00 m + 1) in
        let s := 0.5 / t in
        Eigen.quat ((Eigen.m01 m + Eigen.m10 m) * s)
                   (0.5 * t)
                   ((Eigen.m21 m + Eigen.m12 m) * s)
                   ((Eigen.m02 m - Eigen.m20 m) * s)
    | _ =>
        let t := PrimFloat.sqrt (Eigen.m22 m - Eigen.m00 m - Eigen.m11 m + 1) in
        let s := 0.5 / t in
        Eigen.quat ((Eigen.m02 m + Eigen.m20 m) * s)
                   ((Eigen.m12 m + Eigen.m21 m) * s)
                   (0.5 * t)
                   ((Eigen.m10 m - Eigen.m01 m) * s)
    end.

(** [q.normalize()]: divide by the norm when the squared norm is positive. *)
Definition normalize (q : Eigen.Quaterniond) : Eigen.Quaterniond :=
  let n2 := Eigen.x q * Eigen.x q + Eigen.y q * Eigen.y q
            + Eigen.z q * Eigen.z q + Eigen.w q * Eigen.w q in
  if PrimFloat.ltb 0 n2 then
    let n := PrimFloat.sqrt n2 in
    Eigen.quat (Eigen.x q / n) (Eigen.y q / n) (Eigen.z q / n) (Eigen.w q / n)
  else q.

Definition toRotationMatrix (q : Eigen.Quaterniond) : Eigen.Matrix3d :=
  let tx := 2 * Eigen.x q in
  let ty := 2 * Eigen.y q in
  let tz := 2 * Eigen.z q in
  let twx := tx * Eigen.w q in
  let twy := ty * Eigen.w q in
  let twz := tz * Eigen.w q in
  let txx := tx * Eigen.x q in
  let txy := ty * Eigen.x q in
  let txz := tz * Eigen.x q in
  let tyy := ty * Eigen.y q in
  let tyz := tz * Eigen.y q in
  let tzz := tz * Eigen.z q in
  Eigen.mat3 (1 - (tyy + tzz)) (txy - twz) (txz + twy)
             (txy + twz) (1 - (txx + tzz)) (tyz - twx)
             (txz - twy) (tyz + twx) (1 - (txx + tyy)).

Definition geometry : Eigen.Geometry :=
  {| Eigen.Quaterniond_of_rotation := Quaterniond_of_rotation;
     Eigen.normalize := normalize;
     Eigen.toRotationMatrix := toRotationMatrix |}.

Definition robot : Panda.t := Panda.mk 1 1 1 None.

(** A pose with identity rotation at (x, y, z), as 16 column-major doubles. *)
Definition pose_at (x y z : float) : list float :=
  [1; 0; 0; 0;  0; 1; 0; 0;  0; 0; 1; 0;  x; y; z; 1].

Definition identity3 : Eigen.Matrix3d := Eigen.mat3 1 0 0 0 1 0 0 0 1.

Definition blank_input : ruckig.InputParameter :=
  ruckig.mkInput zeros7 zeros7 zeros7 zeros7 zeros7 zeros7 zeros7 zeros7 zeros7.

Definition blank_output : ruckig.OutputParameter :=
  ruckig.mkOutput zeros7 zeros7 zeros7.

(** A generator as constructed, before [start]. *)
Definition joint_new (keep_running : bool)
  : @JointMotionGenerator.t solver :=
  @JointMotionGenerator.mk solver robot 0 false [] None tt blank_input
    blank_output ruckig.Working false keep_running 0%N.

Definition cartesian_new (keep_running : bool)
  : @CartesianMotionGenerator.t solver :=
  @CartesianMotionGenerator.mk solver robot 0 false [] None tt blank_input
    blank_output ruckig.Working false keep_running 0%N.


Definition cartesian_new_unchecked (keep_running : bool)
  : @CartesianMotionGenerator.t unchecked_solver :=
  @CartesianMotionGenerator.mk unchecked_solver robot 0 false [] None tt
    blank_input blank_output ruckig.Working false keep_running 0%N.

Definition period1 : franka.Duration.t := franka.Duration.mk 1.

(** Robot states: all joints at [v], the end effector at (v, 0, 0), measured
    and commanded values equal. *)
Definition rs_at (v : float) : franka.RobotState.t :=
  franka.RobotState.mk (repeat v 7) (repeat v 7) (pose_at v 0 0) (pose_at v 0 0).

(** A robot state whose measured values lag the commanded ones. *)
Definition rs_lagging (measured commanded : float) : franka.RobotState.t :=
  franka.RobotState.mk (repeat measured 7) (repeat commanded 7)
                       (pose_at measured 0 0) (pose_at commanded 0 0).

Definition jw (v : float) : JointMotion.t := JointMotion.make (repeat v 7).

(** A joint generator in mid-flight: started at 0, the waypoint at 1 loaded
    and one quarter of the way done, the waypoint at 2 still queued. *)
Definition joint_midflight : @JointMotionGenerator.t solver :=
  fst (@JointMotionGenerator.run solver limits
         [JointMotionGenerator.Start robot (rs_at 0);
          JointMotionGenerator.AddWaypoints [jw 1; jw 2];
          JointMotionGenerator.Step (rs_at 0) period1]
         (joint_new false)).

Definition cw (frame : ReferenceFrame.t) (x y z : float) : CartesianMotion.t :=
  CartesianMotion.mk (Eigen.Map (pose_at x y z)) frame 1 1 1.

Definition cartesian_midflight
  : @CartesianMotionGenerator.t solver :=
  fst (@CartesianMotionGenerator.run solver limits geometry
         [CartesianMotionGenerator.Start robot (rs_at 0);
          CartesianMotionGenerator.AddWaypoints
            [cw ReferenceFrame.GLOBAL 1 0 0; cw ReferenceFrame.GLOBAL 2 0 0];
          CartesianMotionGenerator.Step (rs_at 0) period1]
         (cartesian_new false)).

(** A waypoint whose velocity multiplier is negative: every velocity limit
    handed to the solver is then negative. *)
Definition jw_invalid : JointMotion.t :=
  JointMotion.mk (repeat 1 7) (-1) 1 1.

Definition cw_invalid : CartesianMotion.t :=
  CartesianMotion.mk (Eigen.Map (pose_at 1 0 0)) ReferenceFrame.GLOBAL (-1) 1 1.

(** Generators started at 0 with the invalid waypoint queued. *)
Definition joint_invalid : @JointMotionGenerator.t solver :=
  @JointMotionGenerator.addWaypoint solver jw_invalid
    (@JointMotionGenerator.start solver limits robot (rs_at 0)
       (joint_new false)).

Definition cartesian_invalid : @CartesianMotionGenerator.t solver :=
  @CartesianMotionGenerator.addWaypoint solver cw_invalid
    (@CartesianMotionGenerator.start solver limits geometry robot (rs_at 0)
       (cartesian_new false)).

(** Started generators, nothing queued. *)
Definition joint_started : @JointMotionGenerator.t solver :=
  @JointMotionGenerator.start solver limits robot (rs_at 0) (joint_new false).

Definition cartesian_started : @CartesianMotionGenerator.t solver :=
  @CartesianMotionGenerator.start solver limits geometry robot (rs_at 0)
    (cartesian_new false).

Definition ticks_at (v : float) (n : nat)
  : list (franka.RobotState.t * franka.Duration.t) :=
  repeat (rs_at v, period1) n.

(** A joint generator after one full cycle: started, stopped, and ticked
    until the sentinel came. *)
Definition joint_spent : @JointMotionGenerator.t solver :=
  fst (@JointMotionGenerator.run solver limits
         (JointMotionGenerator.Start robot (rs_at 0)
          :: JointMotionGenerator.Stop
          :: JointMotionGenerator.ticks_only (ticks_at 0 6))
         (joint_new false)).

(** A joint generator after one cycle that ended by natural completion. *)
Definition joint_completed : @JointMotionGenerator.t solver :=
  fst (@JointMotionGenerator.run solver limits
         (JointMotionGenerator.Start robot (rs_at 0)
          :: JointMotionGenerator.ticks_only (ticks_at 0 6))
         (joint_new false)).

(** The two-waypoint Cartesian sequence, at the point where the first
    segment (to x = 1) is done and the RELATIVE waypoint (one unit along y)
    is the one left in the queue. *)
Definition cw_first : CartesianMotion.t := cw ReferenceFrame.GLOBAL 1 0 0.
Definition cw_relative : CartesianMotion.t := cw ReferenceFrame.RELATIVE 0 1 0.

Definition cartesian_first_done : @CartesianMotionGenerator.t solver :=
  fst (@CartesianMotionGenerator.run solver limits geometry
         [CartesianMotionGenerator.Start robot (rs_at 0);
          CartesianMotionGenerator.AddWaypoints [cw_first; cw_relative];
          CartesianMotionGenerator.Step (rs_at 0) period1;
          CartesianMotionGenerator.Step (rs_at 0.25) period1;
          CartesianMotionGenerator.Step (rs_at 0.5) period1;
          CartesianMotionGenerator.Step (rs_at 0.75) period1;
          CartesianMotionGenerator.Step (rs_at 1) period1]
         (cartesian_new false)).





(** A started joint generator with two waypoints queued, the first of them
    at the position the robot is in. *)
Definition joint_two_queued : @JointMotionGenerator.t solver :=
  @JointMotionGenerator.addWaypoints solver [jw 0; jw 1] joint_started.

(** A started Cartesian generator with one GLOBAL waypoint queued. *)
Definition cartesian_one_queued : @CartesianMotionGenerator.t solver :=
  @CartesianMotionGenerator.addWaypoint solver cw_first cartesian_started.

(** A pose turned by a quarter turn about z at (x, y, z), as 16
    column-major doubles. *)
Definition pose_rz90_at (x y z : float) : list float :=
  [0; 1; 0; 0;  -1; 0; 0; 0;  0; 0; 1; 0;  x; y; z; 1].

(** A robot whose end effector is measured at (1, 0, 0), turned by a quarter
    turn about z. *)
Definition rs_turned : franka.RobotState.t :=
  franka.RobotState.mk (repeat 0 7) (repeat 0 7)
                       (pose_rz90_at 1 0 0) (pose_rz90_at 1 0 0).

(** A RELATIVE waypoint: two units along x and another quarter turn. *)
Definition cw_turn : CartesianMotion.t :=
  CartesianMotion.mk (Eigen.Map (pose_rz90_at 2 0 0))
                     ReferenceFrame.RELATIVE 1 1 1.

Definition cartesian_turn_queued : @CartesianMotionGenerator.t solver :=
  @CartesianMotionGenerator.addWaypoint solver cw_turn cartesian_started.

End Demo.

(** Short names for the two generators. *)
Module Joint := JointMotionGenerator.
Module Cartesian := CartesianMotionGenerator.

(** * Facts about the joint generator *)
Section JointFacts.
Import JointMotionGenerator.
Context {S : ruckig.Solver} {L : Panda.Limits}.

(** Splits [solve_and_classify] along every branch of the classification. *)
Ltac joint_classify g :=
  unfold solve_and_classify;
  destruct (ruckig.update (trajectory_generator_ g) (input_para_ g)
                          (output_para_ g)) as [[?res ?otg] ?out] eqn:?;
  simpl;
  destruct res; simpl;
  try (destruct (waypoints_ g) eqn:?; simpl;
       destruct (keep_running_ g) eqn:?; simpl;
       destruct (current_cooldown_iteration g <? cooldown_iterations)%N eqn:?;
       simpl).

Ltac ltb_facts :=
  repeat match goal with
         | H : (_ <? _)%N = true |- _ => apply N.ltb_lt in H
         | H : (_ <? _)%N = false |- _ => apply N.ltb_ge in H
         end.

Lemma joint_push_all ws : forall g,
  fold_left (fun g' w => set_waypoints_ (waypoints_ g' ++ [w]) g') ws g
  = set_waypoints_ (waypoints_ g ++ ws) g.
Proof.
  induction ws as [|w ws IH]; intros g; simpl.
  - destruct g; simpl. now rewrite app_nil_r.
  - rewrite IH. simpl. now rewrite <- app_assoc.
Qed.

Lemma joint_addWaypoints_eq ws g :
  addWaypoints ws g = set_reload_ true (set_waypoints_ (waypoints_ g ++ ws) g).
Proof. unfold addWaypoints. now rewrite joint_push_all. Qed.

Lemma joint_pop_all_nil ws : pop_all ws = [].
Proof. induction ws; simpl; auto. Qed.

Lemma joint_reload_frame rs g :
  let g' := reload_if_requested rs g in
  motion_finished_ g' = motion_finished_ g
  /\ keep_running_ g' = keep_running_ g
  /\ current_cooldown_iteration g' = current_cooldown_iteration g
  /\ output_para_ g' = output_para_ g
  /\ trajectory_generator_ g' = trajectory_generator_ g
  /\ reload_ g' = false.
Proof.
  unfold reload_if_requested, loadNextWaypoint.
  destruct (reload_ g) eqn:Hr; [destruct (waypoints_ g)|]; simpl; auto 10.
Qed.

Lemma joint_reload_idle rs g :
  reload_ g = false -> reload_if_requested rs g = g.
Proof. unfold reload_if_requested. now intros ->. Qed.

(** What a requested reload loads: the front of the queue, or a hold target
    at the commanded joint positions when the queue is empty. *)
Lemma joint_reload_loads rs g :
  reload_ g = true ->
  let next := hd (JointMotion.make (franka.RobotState.q_d rs)) (waypoints_ g) in
  let g' := reload_if_requested rs g in
  current_waypoint_ g' = Some next
  /\ waypoints_ g' = tl (waypoints_ g)
  /\ ruckig.target_position (input_para_ g') = JointMotion.target next
  /\ ruckig.target_velocity (input_para_ g') = zeros7
  /\ ruckig.target_acceleration (input_para_ g') = zeros7
  /\ reload_ g' = false.
Proof.
  intros Hr. cbv zeta. unfold reload_if_requested, loadNextWaypoint.
  rewrite Hr. destruct (waypoints_ g) eqn:Hw; simpl; rewrite ?Hw; auto 10.
Qed.

Lemma joint_solve_flag g :
  motion_finished_ g = false ->
  motion_finished_ (fst (solve_and_classify g)) =
  match snd (solve_and_classify g) with
  | Some c => franka.JointPositions.motion_finished c
  | None => false
  end.
Proof. intros Hf. joint_classify g; auto. Qed.

Lemma joint_solve_frame g :
  let g' := fst (solve_and_classify g) in
  keep_running_ g' = keep_running_ g
  /\ waypoints_ g' = waypoints_ g
  /\ current_waypoint_ g' = current_waypoint_ g
  /\ ruckig.target_position (input_para_ g')
     = ruckig.target_position (input_para_ g)
  /\ (waypoints_ g = [] -> reload_ g' = reload_ g).
Proof. joint_classify g; repeat split; auto; try easy. Qed.

Lemma joint_solve_counter g :
  (cooldown_iterations <= current_cooldown_iteration g)%N ->
  current_cooldown_iteration (fst (solve_and_classify g))
  = current_cooldown_iteration g.
Proof. intros Hc. joint_classify g; auto. ltb_facts. lia. Qed.

Lemma joint_sub_step_flag rs g :
  motion_finished_ g = false ->
  motion_finished_ (fst (sub_step rs g)) =
  match snd (sub_step rs g) with
  | Some c => franka.JointPositions.motion_finished c
  | None => false
  end.
Proof.
  intros Hf. unfold sub_step. apply joint_solve_flag.
  now rewrite (proj1 (joint_reload_frame rs g)).
Qed.

(** A running generator leaves the loop still running exactly when the
    command that comes out is not the sentinel. *)
Lemma joint_step_loop_flag n : forall rs g,
  motion_finished_ g = false ->
  motion_finished_ (fst (step_loop n rs g))
  = franka.JointPositions.motion_finished (snd (step_loop n rs g)).
Proof.
  induction n as [|n IH]; intros rs g Hf; simpl; [assumption|].
  pose proof (joint_sub_step_flag rs g Hf) as Hs.
  destruct (sub_step rs g) as [g' [c|]]; simpl in *; auto.
Qed.

Lemma joint_steps_of_pos period :
  exists k, Z.to_nat (steps_of period) = Datatypes.S k.
Proof.
  unfold steps_of.
  destruct (Z.to_nat (Z.max (to_int (franka.Duration.toMSec period)) 1))
    eqn:E; [lia | eauto].
Qed.

Lemma joint_step_running rs period g :
  motion_finished_ g = false ->
  step rs period g
  = step_loop (Z.to_nat (steps_of period)) rs (tick rs period g).
Proof. unfold step. simpl. now intros ->. Qed.

Lemma joint_step_finishing rs period g :
  motion_finished_ g = true ->
  step rs period g
  = if (current_cooldown_iteration g <? cooldown_iterations)%N
    then (bump_cooldown (tick rs period g),
          franka.JointPositions.make (franka.RobotState.q_d rs))
    else (tick rs period g,
          franka.JointPositions.MotionFinished
            (franka.JointPositions.make (franka.RobotState.q_d rs))).
Proof. unfold step. simpl. now intros ->. Qed.

(** With an empty queue and no reload pending, the loop never touches the
    loaded waypoint or the target it was given. *)
Lemma joint_step_loop_settled n : forall rs g,
  waypoints_ g = [] -> reload_ g = false ->
  let g' := fst (step_loop n rs g) in
  waypoints_ g' = [] /\ reload_ g' = false
  /\ current_waypoint_ g' = current_waypoint_ g
  /\ ruckig.target_position (input_para_ g')
     = ruckig.target_position (input_para_ g).
Proof.
  induction n as [|n IH]; intros rs g Hw Hr; simpl; [auto|].
  unfold sub_step. rewrite (joint_reload_idle rs g Hr).
  destruct (joint_solve_frame g) as (_ & Hw' & Hc & Ht & Hr').
  specialize (Hr' Hw).
  destruct (solve_and_classify g) as [g1 [c|]]; simpl in *.
  - repeat split; congruence.
  - destruct (IH rs g1) as (? & ? & ? & ?); try congruence.
    repeat split; congruence.
Qed.

(** A reload requested with at most one waypoint queued: whatever the number
    of sub-steps and whatever the solver answers, the tick ends with that
    waypoint (or the hold target) loaded. *)
Lemma joint_step_loop_loads n rs g :
  reload_ g = true -> tl (waypoints_ g) = [] ->
  let next := hd (JointMotion.make (franka.RobotState.q_d rs)) (waypoints_ g) in
  let g' := fst (step_loop (Datatypes.S n) rs g) in
  waypoints_ g' = []
  /\ current_waypoint_ g' = Some next
  /\ ruckig.target_position (input_para_ g') = JointMotion.target next.
Proof.
  intros Hr Ht. simpl. unfold sub_step.
  destruct (joint_reload_loads rs g Hr) as (Hc & Hw & Hp & _ & _ & Hr1).
  rewrite Ht in Hw.
  destruct (joint_solve_frame (reload_if_requested rs g))
    as (_ & Hw' & Hc' & Ht' & Hr').
  specialize (Hr' Hw).
  destruct (solve_and_classify (reload_if_requested rs g)) as [g1 [c|]];
    simpl in *.
  - repeat split; congruence.
  - destruct (joint_step_loop_settled n rs g1) as (? & ? & ? & ?);
      try congruence.
    repeat split; congruence.
Qed.

Lemma joint_step_loads rs period g :
  motion_finished_ g = false ->
  reload_ g = true -> tl (waypoints_ g) = [] ->
  let next := hd (JointMotion.make (franka.RobotState.q_d rs)) (waypoints_ g) in
  let g' := fst (step rs period g) in
  waypoints_ g' = []
  /\ current_waypoint_ g' = Some next
  /\ ruckig.target_position (input_para_ g') = JointMotion.target next.
Proof.
  intros Hf Hr Ht. rewrite (joint_step_running rs period g Hf).
  destruct (joint_steps_of_pos period) as [k ->].
  exact (joint_step_loop_loads k rs (tick rs period g) Hr Ht).
Qed.

(** ** Idling with [keep_running_] *)



Lemma joint_step_loop_keep n : forall rs g,
  keep_running_ (fst (step_loop n rs g)) = keep_running_ g.
Proof.
  induction n as [|n IH]; intros rs g; simpl; [reflexivity|].
  unfold sub_step.
  destruct (joint_reload_frame rs g) as (_ & Hk' & _).
  destruct (joint_solve_frame (reload_if_requested rs g)) as (Hk'' & _).
  destruct (solve_and_classify (reload_if_requested rs g)) as [g1 [c|]];
    simpl in *; [|rewrite IH]; congruence.
Qed.

Lemma joint_step_keep rs period g :
  keep_running_ (fst (step rs period g)) = keep_running_ g.
Proof.
  unfold step.
  destruct (motion_finished_ (tick rs period g)).
  - destruct (_ <? _)%N; reflexivity.
  - now rewrite joint_step_loop_keep.
Qed.


(** ** The cooldown counter once the budget is spent *)

Lemma joint_step_loop_counter n : forall rs g,
  (cooldown_iterations <= current_cooldown_iteration g)%N ->
  current_cooldown_iteration (fst (step_loop n rs g))
  = current_cooldown_iteration g.
Proof.
  induction n as [|n IH]; intros rs g Hc; simpl; [reflexivity|].
  unfold sub_step.
  destruct (joint_reload_frame rs g) as (_ & _ & Hc' & _).
  pose proof (joint_solve_counter (reload_if_requested rs g)) as Hs.
  destruct (solve_and_classify (reload_if_requested rs g)) as [g1 [c|]];
    simpl in *; [|rewrite IH]; rewrite ?Hs; congruence.
Qed.

Lemma joint_step_counter rs period g :
  (cooldown_iterations <= current_cooldown_iteration g)%N ->
  current_cooldown_iteration (fst (step rs period g))
  = current_cooldown_iteration g.
Proof.
  intros Hc. unfold step.
  destruct (motion_finished_ (tick rs period g)).
  - replace (current_cooldown_iteration (tick rs period g))
      with (current_cooldown_iteration g) by reflexivity.
    apply N.ltb_ge in Hc. rewrite Hc. reflexivity.
  - now rewrite joint_step_loop_counter.
Qed.

Lemma joint_run_counter acts : forall g,
  (cooldown_iterations <= current_cooldown_iteration g)%N ->
  current_cooldown_iteration (fst (run acts g))
  = current_cooldown_iteration g.
Proof.
  induction acts as [|a acts IH]; intros g Hc; [reflexivity|].
  destruct a as [w|ws| |robot rs| |rs period]; simpl;
    try (now rewrite IH).
  - rewrite IH; rewrite joint_addWaypoints_eq; auto.
  - pose proof (joint_step_counter rs period g Hc) as Hs.
    destruct (step rs period g) as [g1 c]; simpl in *.
    specialize (IH g1). destruct (run acts g1) as [g2 cs]; simpl in *.
    rewrite IH; congruence.
Qed.

Lemma joint_solve_completion g :
  (cooldown_iterations <= current_cooldown_iteration g)%N ->
  match snd (solve_and_classify g) with
  | Some c => franka.JointPositions.motion_finished c = true
  | None => at_completion (fst (solve_and_classify g)) = false
  end.
Proof.
  intros Hc. unfold at_completion.
  joint_classify g; ltb_facts; try lia; auto;
    rewrite ?Heql, ?Heqb; reflexivity.
Qed.

Lemma joint_step_loop_completion n : forall rs g,
  (cooldown_iterations <= current_cooldown_iteration g)%N ->
  (n = O -> at_completion g = false) ->
  at_completion (fst (step_loop n rs g)) = true ->
  franka.JointPositions.motion_finished (snd (step_loop n rs g)) = true.
Proof.
  induction n as [|n IH]; intros rs g Hc H0; simpl.
  - rewrite H0; [discriminate | reflexivity].
  - unfold sub_step.
    destruct (joint_reload_frame rs g) as (_ & _ & Hc' & _).
    pose proof (joint_solve_completion (reload_if_requested rs g)) as Hs.
    pose proof (joint_solve_counter (reload_if_requested rs g)) as Hn.
    destruct (solve_and_classify (reload_if_requested rs g)) as [g1 [c|]];
      simpl in *.
    + intros _. apply Hs. congruence.
    + apply IH; [rewrite Hn; congruence | intros _; apply Hs; congruence].
Qed.

(** ** Cooldown sequences *)

Lemma joint_cooldown_left_bump g :
  (current_cooldown_iteration g <? cooldown_iterations)%N = true ->
  cooldown_left g = Datatypes.S (cooldown_left (bump_cooldown g)).
Proof.
  intros H. ltb_facts. unfold cooldown_left.
  replace (current_cooldown_iteration (bump_cooldown g))
    with ((current_cooldown_iteration g + 1) mod 2 ^ 64)%N by reflexivity.
  unfold cooldown_iterations in *.
  rewrite N.mod_small
    by (change (2 ^ 64)%N with 18446744073709551616%N; lia).
  lia.
Qed.

Lemma joint_cooldown_left_spent g :
  (current_cooldown_iteration g <? cooldown_iterations)%N = false ->
  cooldown_left g = O.
Proof. intros H. ltb_facts. unfold cooldown_left. lia. Qed.

(** Ticks of a generator whose finished flag is set: plain commands while
    the budget lasts, the sentinel from then on, each wrapping the commanded
    joint positions of its tick. *)
Lemma joint_finishing_run ticks : forall g,
  motion_finished_ g = true ->
  map franka.JointPositions.motion_finished (snd (run (ticks_only ticks) g))
  = repeat false (Nat.min (cooldown_left g) (length ticks))
    ++ repeat true (length ticks - cooldown_left g)
  /\ map franka.JointPositions.q (snd (run (ticks_only ticks) g))
     = map (fun tk => franka.RobotState.q_d (fst tk)) ticks.
Proof.
  induction ticks as [|[rs period] ticks IH]; intros g Hf.
  - simpl. rewrite Nat.min_0_r. auto.
  - simpl. rewrite (joint_step_finishing rs period g Hf).
    destruct (current_cooldown_iteration g <? cooldown_iterations)%N eqn:Hlt.
    + rewrite (joint_cooldown_left_bump g Hlt).
      specialize (IH (bump_cooldown (tick rs period g)) Hf).
      change (cooldown_left (bump_cooldown (tick rs period g)))
        with (cooldown_left (bump_cooldown g)) in IH.
      destruct (run (ticks_only ticks) (bump_cooldown (tick rs period g)))
        as [g2 cs]; simpl in *.
      destruct IH as [-> ->]. auto.
    + rewrite (joint_cooldown_left_spent g Hlt).
      specialize (IH (tick rs period g) Hf).
      change (cooldown_left (tick rs period g)) with (cooldown_left g) in IH.
      rewrite (joint_cooldown_left_spent g Hlt) in IH.
      destruct (run (ticks_only ticks) (tick rs period g)) as [g2 cs];
        simpl in *.
      destruct IH as [-> ->]. rewrite Nat.sub_0_r. auto.
Qed.

Lemma joint_solve_completes g :
  waypoints_ g = [] -> keep_running_ g = false ->
  fst (fst (ruckig.update (trajectory_generator_ g) (input_para_ g)
                          (output_para_ g))) = ruckig.Finished ->
  let g1 := set_solved (ruckig.update (trajectory_generator_ g)
                                      (input_para_ g) (output_para_ g)) g in
  let out := franka.JointPositions.make
               (ruckig.new_position (output_para_ g1)) in
  solve_and_classify g
  = if (current_cooldown_iteration g <? cooldown_iterations)%N
    then (bump_cooldown g1, Some out)
    else (set_motion_finished_ true g1,
          Some (franka.JointPositions.MotionFinished out)).
Proof.
  intros Hw Hk Hres. unfold solve_and_classify. simpl.
  rewrite Hres, Hw, Hk. reflexivity.
Qed.

(** One tick at natural completion: the solver says [Finished] on the loaded
    segment, nothing is queued, nothing is to be reloaded. *)
Lemma joint_step_completes rs period g :
  motion_finished_ g = false -> reload_ g = false ->
  waypoints_ g = [] -> keep_running_ g = false ->
  fst (fst (ruckig.update (trajectory_generator_ g) (input_para_ g)
                          (output_para_ g))) = ruckig.Finished ->
  let g1 := set_solved (ruckig.update (trajectory_generator_ g)
                                      (input_para_ g) (output_para_ g))
                       (tick rs period g) in
  let out := franka.JointPositions.make
               (ruckig.new_position (output_para_ g1)) in
  step rs period g
  = if (current_cooldown_iteration g <? cooldown_iterations)%N
    then (bump_cooldown g1, out)
    else (set_motion_finished_ true g1,
          franka.JointPositions.MotionFinished out).
Proof.
  intros Hf Hr Hw Hk Hfin. cbv zeta.
  rewrite (joint_step_running rs period g Hf).
  destruct (joint_steps_of_pos period) as [k ->]. simpl.
  unfold sub_step.
  rewrite (joint_reload_idle rs (tick rs period g) Hr).
  rewrite (joint_solve_completes (tick rs period g) Hw Hk Hfin).
  change (current_cooldown_iteration (tick rs period g))
    with (current_cooldown_iteration g).
  destruct (_ <? _)%N; reflexivity.
Qed.

(** Ticks at natural completion: the same shape as after [stop]. *)
Lemma joint_completing_run ticks : forall g,
  motion_finished_ g = false -> reload_ g = false ->
  waypoints_ g = [] -> keep_running_ g = false ->
  finished_on_each ticks g ->
  map franka.JointPositions.motion_finished (snd (run (ticks_only ticks) g))
  = repeat false (Nat.min (cooldown_left g) (length ticks))
    ++ repeat true (length ticks - cooldown_left g).
Proof.
  induction ticks as [|[rs period] ticks IH]; intros g Hf Hr Hw Hk Hfin.
  - simpl. now rewrite Nat.min_0_r.
  - destruct Hfin as [Hcall Hrest]. simpl in Hrest. simpl.
    rewrite (joint_step_completes rs period g Hf Hr Hw Hk (Hcall Hf))
      in Hrest |- *.
    destruct (current_cooldown_iteration g <? cooldown_iterations)%N eqn:Hlt.
    + rewrite (joint_cooldown_left_bump g Hlt).
      simpl in Hrest.
      match goal with
      | |- context [run _ ?g1] =>
          specialize (IH g1 Hf Hr Hw Hk Hrest);
          change (cooldown_left g1) with (cooldown_left (bump_cooldown g)) in IH;
          destruct (run (ticks_only ticks) g1) as [g2 cs]
      end.
      simpl in *. now rewrite IH.
    + rewrite (joint_cooldown_left_spent g Hlt).
      match goal with
      | |- context [run _ ?g1] =>
          destruct (joint_finishing_run ticks g1 eq_refl) as [Hflags _];
          change (cooldown_left g1) with (cooldown_left g) in Hflags;
          destruct (run (ticks_only ticks) g1) as [g2 cs]
      end.
      rewrite (joint_cooldown_left_spent g Hlt) in Hflags.
      simpl in *. rewrite Hflags, Nat.sub_0_r. reflexivity.
Qed.

(** ** Solver errors *)

(** The error branch of the joint loop compares with [Error] only: the
    classified error codes fall through to [pass_to_input]. *)
Lemma joint_solve_classified_error g :
  let r := ruckig.update (trajectory_generator_ g) (input_para_ g)
                         (output_para_ g) in
  ruckig.is_error (fst (fst r)) = true ->
  ruckig.eqb (fst (fst r)) ruckig.Error = false ->
  solve_and_classify g
  = (set_input_para_ (ruckig.pass_to_input (snd r) (input_para_ g))
                     (set_solved r g), None).
Proof.
  cbv zeta. unfold solve_and_classify.
  destruct (ruckig.update (trajectory_generator_ g) (input_para_ g)
                          (output_para_ g)) as [[res otg] out].
  simpl. destruct res; simpl; intros; try discriminate; reflexivity.
Qed.

Lemma joint_solve_error g :
  let r := ruckig.update (trajectory_generator_ g) (input_para_ g)
                         (output_para_ g) in
  fst (fst r) = ruckig.Error ->
  solve_and_classify g
  = (set_motion_finished_ true (set_solved r g),
     Some (franka.JointPositions.MotionFinished
             (franka.JointPositions.make (ruckig.new_position (snd r))))).
Proof.
  cbv zeta. unfold solve_and_classify. simpl. now intros ->.
Qed.

(** ** [isRunning] across a tick *)

Lemma joint_step_isRunning rs period g :
  isRunning g = true ->
  isRunning (fst (step rs period g))
  = negb (franka.JointPositions.motion_finished (snd (step rs period g))).
Proof.
  unfold isRunning. intros Hf. apply negb_true_iff in Hf.
  rewrite (joint_step_running rs period g Hf).
  now rewrite (joint_step_loop_flag _ rs (tick rs period g) Hf).
Qed.

Lemma joint_step_stays_finished rs period g :
  motion_finished_ g = true ->
  motion_finished_ (fst (step rs period g)) = true.
Proof.
  intros Hf. rewrite (joint_step_finishing rs period g Hf).
  destruct (_ <? _)%N; assumption.
Qed.

End JointFacts.

(** * Facts about the Cartesian generator *)
Section CartesianFacts.
Import CartesianMotionGenerator.
Context {S : ruckig.Solver} {L : Panda.Limits} {Geo : Eigen.Geometry}.

(** Splits [solve_and_classify] along every branch of the classification. *)
Ltac cartesian_classify g :=
  unfold solve_and_classify;
  destruct (ruckig.update (trajectory_generator_ g) (input_para_ g)
                          (output_para_ g)) as [[?res ?otg] ?out] eqn:?;
  simpl;
  destruct res; simpl;
  try (destruct (waypoints_ g) eqn:?; simpl;
       destruct (keep_running_ g) eqn:?; simpl;
       destruct (current_cooldown_iteration g <? cooldown_iterations)%N eqn:?;
       simpl).

Ltac ltb_facts :=
  repeat match goal with
         | H : (_ <? _)%N = true |- _ => apply N.ltb_lt in H
         | H : (_ <? _)%N = false |- _ => apply N.ltb_ge in H
         end.

Lemma cartesian_push_all ws : forall g,
  fold_left (fun g' w => set_waypoints_ (waypoints_ g' ++ [w]) g') ws g
  = set_waypoints_ (waypoints_ g ++ ws) g.
Proof.
  induction ws as [|w ws IH]; intros g; simpl.
  - destruct g; simpl. now rewrite app_nil_r.
  - rewrite IH. simpl. now rewrite <- app_assoc.
Qed.

Lemma cartesian_addWaypoints_eq ws g :
  addWaypoints ws g = set_reload_ true (set_waypoints_ (waypoints_ g ++ ws) g).
Proof. unfold addWaypoints. now rewrite cartesian_push_all. Qed.

Lemma cartesian_pop_all_nil ws : pop_all ws = [].
Proof. induction ws; simpl; auto. Qed.

Lemma cartesian_reload_frame rs g :
  let g' := reload_if_requested rs g in
  motion_finished_ g' = motion_finished_ g
  /\ keep_running_ g' = keep_running_ g
  /\ current_cooldown_iteration g' = current_cooldown_iteration g
  /\ output_para_ g' = output_para_ g
  /\ trajectory_generator_ g' = trajectory_generator_ g
  /\ reload_ g' = false.
Proof.
  unfold reload_if_requested, loadNextWaypoint.
  destruct (reload_ g) eqn:Hr; [destruct (waypoints_ g)|]; simpl; auto 10.
Qed.

Lemma cartesian_reload_idle rs g :
  reload_ g = false -> reload_if_requested rs g = g.
Proof. unfold reload_if_requested. now intros ->. Qed.

(** What a requested reload loads: the front of the queue, or a hold target
    at the commanded pose when the queue is empty. *)
Lemma cartesian_reload_loads rs g :
  reload_ g = true ->
  let next := hd (CartesianMotion.make
                   (Eigen.Map (franka.RobotState.O_T_EE_c rs)))
                (waypoints_ g) in
  let g' := reload_if_requested rs g in
  current_waypoint_ g' = Some next
  /\ waypoints_ g' = tl (waypoints_ g)
  /\ ruckig.target_position (input_para_ g') = target_vector (resolve rs next)
  /\ ruckig.target_velocity (input_para_ g') = zeros7
  /\ ruckig.target_acceleration (input_para_ g') = zeros7
  /\ reload_ g' = false.
Proof.
  intros Hr. cbv zeta. unfold reload_if_requested, loadNextWaypoint.
  rewrite Hr. destruct (waypoints_ g) eqn:Hw; simpl; rewrite ?Hw; auto 10.
Qed.

Lemma cartesian_solve_flag rs g :
  motion_finished_ g = false ->
  motion_finished_ (fst (solve_and_classify rs g)) =
  match snd (solve_and_classify rs g) with
  | Some c => franka.CartesianPose.motion_finished c
  | None => false
  end.
Proof. intros Hf. cartesian_classify g; auto. Qed.

Lemma cartesian_solve_frame rs g :
  let g' := fst (solve_and_classify rs g) in
  keep_running_ g' = keep_running_ g
  /\ waypoints_ g' = waypoints_ g
  /\ current_waypoint_ g' = current_waypoint_ g
  /\ ruckig.target_position (input_para_ g')
     = ruckig.target_position (input_para_ g)
  /\ (waypoints_ g = [] -> reload_ g' = reload_ g).
Proof. cartesian_classify g; repeat split; auto; try easy. Qed.

Lemma cartesian_solve_counter rs g :
  (cooldown_iterations <= current_cooldown_iteration g)%N ->
  current_cooldown_iteration (fst (solve_and_classify rs g))
  = current_cooldown_iteration g.
Proof. intros Hc. cartesian_classify g; auto. ltb_facts. lia. Qed.

Lemma cartesian_sub_step_flag rs g :
  motion_finished_ g = false ->
  motion_finished_ (fst (sub_step rs g)) =
  match snd (sub_step rs g) with
  | Some c => franka.CartesianPose.motion_finished c
  | None => false
  end.
Proof.
  intros Hf. unfold sub_step. apply cartesian_solve_flag.
  now rewrite (proj1 (cartesian_reload_frame rs g)).
Qed.

(** A running generator leaves the loop still running exactly when the
    command that comes out is not the sentinel. *)
Lemma cartesian_step_loop_flag n : forall rs g,
  motion_finished_ g = false ->
  motion_finished_ (fst (step_loop n rs g))
  = franka.CartesianPose.motion_finished (snd (step_loop n rs g)).
Proof.
  induction n as [|n IH]; intros rs g Hf; simpl; [assumption|].
  pose proof (cartesian_sub_step_flag rs g Hf) as Hs.
  destruct (sub_step rs g) as [g' [c|]]; simpl in *; auto.
Qed.

Lemma cartesian_steps_of_pos period :
  exists k, Z.to_nat (steps_of period) = Datatypes.S k.
Proof.
  unfold steps_of.
  destruct (Z.to_nat (Z.max (to_int (franka.Duration.toMSec period)) 1))
    eqn:E; [lia | eauto].
Qed.

Lemma cartesian_step_running rs period g :
  motion_finished_ g = false ->
  step rs period g
  = step_loop (Z.to_nat (steps_of period)) rs (tick rs period g).
Proof. unfold step. simpl. now intros ->. Qed.

Lemma cartesian_step_finishing rs period g :
  motion_finished_ g = true ->
  step rs period g
  = if (current_cooldown_iteration g <? cooldown_iterations)%N
    then (bump_cooldown (tick rs period g),
          franka.CartesianPose.make (franka.RobotState.O_T_EE_c rs))
    else (tick rs period g,
          franka.CartesianPose.MotionFinished
            (franka.CartesianPose.make (franka.RobotState.O_T_EE_c rs))).
Proof. unfold step. simpl. now intros ->. Qed.

(** With an empty queue and no reload pending, the loop never touches the
    loaded waypoint or the target it was given. *)
Lemma cartesian_step_loop_settled n : forall rs g,
  waypoints_ g = [] -> reload_ g = false ->
  let g' := fst (step_loop n rs g) in
  waypoints_ g' = [] /\ reload_ g' = false
  /\ current_waypoint_ g' = current_waypoint_ g
  /\ ruckig.target_position (input_para_ g')
     = ruckig.target_position (input_para_ g).
Proof.
  induction n as [|n IH]; intros rs g Hw Hr; simpl; [auto|].
  unfold sub_step. rewrite (cartesian_reload_idle rs g Hr).
  destruct (cartesian_solve_frame rs g) as (_ & Hw' & Hc & Ht & Hr').
  specialize (Hr' Hw).
  destruct (solve_and_classify rs g) as [g1 [c|]]; simpl in *.
  - repeat split; congruence.
  - destruct (IH rs g1) as (? & ? & ? & ?); try congruence.
    repeat split; congruence.
Qed.

(** A reload requested with at most one waypoint queued: whatever the number
    of sub-steps and whatever the solver answers, the tick ends with that
    waypoint (or the hold target) loaded. *)
Lemma cartesian_step_loop_loads n rs g :
  reload_ g = true -> tl (waypoints_ g) = [] ->
  let next := hd (CartesianMotion.make
                   (Eigen.Map (franka.RobotState.O_T_EE_c rs)))
                (waypoints_ g) in
  let g' := fst (step_loop (Datatypes.S n) rs g) in
  waypoints_ g' = []
  /\ current_waypoint_ g' = Some next
  /\ ruckig.target_position (input_para_ g') = target_vector (resolve rs next).
Proof.
  intros Hr Ht. simpl. unfold sub_step.
  destruct (cartesian_reload_loads rs g Hr) as (Hc & Hw & Hp & _ & _ & Hr1).
  rewrite Ht in Hw.
  destruct (cartesian_solve_frame rs (reload_if_requested rs g))
    as (_ & Hw' & Hc' & Ht' & Hr').
  specialize (Hr' Hw).
  destruct (solve_and_classify rs (reload_if_requested rs g)) as [g1 [c|]];
    simpl in *.
  - repeat split; congruence.
  - destruct (cartesian_step_loop_settled n rs g1) as (? & ? & ? & ?);
      try congruence.
    repeat split; congruence.
Qed.

Lemma cartesian_step_loads rs period g :
  motion_finished_ g = false ->
  reload_ g = true -> tl (waypoints_ g) = [] ->
  let next := hd (CartesianMotion.make
                   (Eigen.Map (franka.RobotState.O_T_EE_c rs)))
                (waypoints_ g) in
  let g' := fst (step rs period g) in
  waypoints_ g' = []
  /\ current_waypoint_ g' = Some next
  /\ ruckig.target_position (input_para_ g') = target_vector (resolve rs next).
Proof.
  intros Hf Hr Ht. rewrite (cartesian_step_running rs period g Hf).
  destruct (cartesian_steps_of_pos period) as [k ->].
  exact (cartesian_step_loop_loads k rs (tick rs period g) Hr Ht).
Qed.

(** ** Idling with [keep_running_] *)



Lemma cartesian_step_loop_keep n : forall rs g,
  keep_running_ (fst (step_loop n rs g)) = keep_running_ g.
Proof.
  induction n as [|n IH]; intros rs g; simpl; [reflexivity|].
  unfold sub_step.
  destruct (cartesian_reload_frame rs g) as (_ & Hk' & _).
  destruct (cartesian_solve_frame rs (reload_if_requested rs g)) as (Hk'' & _).
  destruct (solve_and_classify rs (reload_if_requested rs g)) as [g1 [c|]];
    simpl in *; [|rewrite IH]; congruence.
Qed.

Lemma cartesian_step_keep rs period g :
  keep_running_ (fst (step rs period g)) = keep_running_ g.
Proof.
  unfold step.
  destruct (motion_finished_ (tick rs period g)).
  - destruct (_ <? _)%N; reflexivity.
  - now rewrite cartesian_step_loop_keep.
Qed.


(** ** The cooldown counter once the budget is spent *)

Lemma cartesian_step_loop_counter n : forall rs g,
  (cooldown_iterations <= current_cooldown_iteration g)%N ->
  current_cooldown_iteration (fst (step_loop n rs g))
  = current_cooldown_iteration g.
Proof.
  induction n as [|n IH]; intros rs g Hc; simpl; [reflexivity|].
  unfold sub_step.
  destruct (cartesian_reload_frame rs g) as (_ & _ & Hc' & _).
  pose proof (cartesian_solve_counter rs (reload_if_requested rs g)) as Hs.
  destruct (solve_and_classify rs (reload_if_requested rs g)) as [g1 [c|]];
    simpl in *; [|rewrite IH]; rewrite ?Hs; congruence.
Qed.

Lemma cartesian_step_counter rs period g :
  (cooldown_iterations <= current_cooldown_iteration g)%N ->
  current_cooldown_iteration (fst (step rs period g))
  = current_cooldown_iteration g.
Proof.
  intros Hc. unfold step.
  destruct (motion_finished_ (tick rs period g)).
  - replace (current_cooldown_iteration (tick rs period g))
      with (current_cooldown_iteration g) by reflexivity.
    apply N.ltb_ge in Hc. rewrite Hc. reflexivity.
  - now rewrite cartesian_step_loop_counter.
Qed.

Lemma cartesian_run_counter acts : forall g,
  (cooldown_iterations <= current_cooldown_iteration g)%N ->
  current_cooldown_iteration (fst (run acts g))
  = current_cooldown_iteration g.
Proof.
  induction acts as [|a acts IH]; intros g Hc; [reflexivity|].
  destruct a as [w|ws| |robot rs| |rs period]; simpl;
    try (now rewrite IH).
  - rewrite IH; rewrite cartesian_addWaypoints_eq; auto.
  - pose proof (cartesian_step_counter rs period g Hc) as Hs.
    destruct (step rs period g) as [g1 c]; simpl in *.
    specialize (IH g1). destruct (run acts g1) as [g2 cs]; simpl in *.
    rewrite IH; congruence.
Qed.

Lemma cartesian_solve_completion rs g :
  (cooldown_iterations <= current_cooldown_iteration g)%N ->
  match snd (solve_and_classify rs g) with
  | Some c => franka.CartesianPose.motion_finished c = true
  | None => at_completion (fst (solve_and_classify rs g)) = false
  end.
Proof.
  intros Hc. unfold at_completion.
  cartesian_classify g; ltb_facts; try lia; auto;
    rewrite ?Heql, ?Heqb; reflexivity.
Qed.

Lemma cartesian_step_loop_completion n : forall rs g,
  (cooldown_iterations <= current_cooldown_iteration g)%N ->
  (n = O -> at_completion g = false) ->
  at_completion (fst (step_loop n rs g)) = true ->
  franka.CartesianPose.motion_finished (snd (step_loop n rs g)) = true.
Proof.
  induction n as [|n IH]; intros rs g Hc H0; simpl.
  - rewrite H0; [discriminate | reflexivity].
  - unfold sub_step.
    destruct (cartesian_reload_frame rs g) as (_ & _ & Hc' & _).
    pose proof (cartesian_solve_completion rs (reload_if_requested rs g)) as Hs.
    pose proof (cartesian_solve_counter rs (reload_if_requested rs g)) as Hn.
    destruct (solve_and_classify rs (reload_if_requested rs g)) as [g1 [c|]];
      simpl in *.
    + intros _. apply Hs. congruence.
    + apply IH; [rewrite Hn; congruence | intros _; apply Hs; congruence].
Qed.

(** ** Cooldown sequences *)

Lemma cartesian_cooldown_left_bump g :
  (current_cooldown_iteration g <? cooldown_iterations)%N = true ->
  cooldown_left g = Datatypes.S (cooldown_left (bump_cooldown g)).
Proof.
  intros H. ltb_facts. unfold cooldown_left.
  replace (current_cooldown_iteration (bump_cooldown g))
    with ((current_cooldown_iteration g + 1) mod 2 ^ 64)%N by reflexivity.
  unfold cooldown_iterations in *.
  rewrite N.mod_small
    by (change (2 ^ 64)%N with 18446744073709551616%N; lia).
  lia.
Qed.

Lemma cartesian_cooldown_left_spent g :
  (current_cooldown_iteration g <? cooldown_iterations)%N = false ->
  cooldown_left g = O.
Proof. intros H. ltb_facts. unfold cooldown_left. lia. Qed.

(** Ticks of a generator whose finished flag is set: plain commands while
    the budget lasts, the sentinel from then on, each wrapping the commanded
    pose of its tick. *)
Lemma cartesian_finishing_run ticks : forall g,
  motion_finished_ g = true ->
  map franka.CartesianPose.motion_finished (snd (run (ticks_only ticks) g))
  = repeat false (Nat.min (cooldown_left g) (length ticks))
    ++ repeat true (length ticks - cooldown_left g)
  /\ map franka.CartesianPose.O_T_EE (snd (run (ticks_only ticks) g))
     = map (fun tk => franka.RobotState.O_T_EE_c (fst tk)) ticks.
Proof.
  induction ticks as [|[rs period] ticks IH]; intros g Hf.
  - simpl. rewrite Nat.min_0_r. auto.
  - simpl. rewrite (cartesian_step_finishing rs period g Hf).
    destruct (current_cooldown_iteration g <? cooldown_iterations)%N eqn:Hlt.
    + rewrite (cartesian_cooldown_left_bump g Hlt).
      specialize (IH (bump_cooldown (tick rs period g)) Hf).
      change (cooldown_left (bump_cooldown (tick rs period g)))
        with (cooldown_left (bump_cooldown g)) in IH.
      destruct (run (ticks_only ticks) (bump_cooldown (tick rs period g)))
        as [g2 cs]; simpl in *.
      destruct IH as [-> ->]. auto.
    + rewrite (cartesian_cooldown_left_spent g Hlt).
      specialize (IH (tick rs period g) Hf).
      change (cooldown_left (tick rs period g)) with (cooldown_left g) in IH.
      rewrite (cartesian_cooldown_left_spent g Hlt) in IH.
      destruct (run (ticks_only ticks) (tick rs period g)) as [g2 cs];
        simpl in *.
      destruct IH as [-> ->]. rewrite Nat.sub_0_r. auto.
Qed.

Lemma cartesian_solve_completes rs g :
  waypoints_ g = [] -> keep_running_ g = false ->
  fst (fst (ruckig.update (trajectory_generator_ g) (input_para_ g)
                          (output_para_ g))) = ruckig.Finished ->
  let g1 := set_solved (ruckig.update (trajectory_generator_ g)
                                      (input_para_ g) (output_para_ g)) g in
  let out := getPoseFromOutput rs (output_para_ g1) in
  solve_and_classify rs g
  = if (current_cooldown_iteration g <? cooldown_iterations)%N
    then (bump_cooldown g1, Some out)
    else (set_motion_finished_ true g1,
          Some (franka.CartesianPose.MotionFinished out)).
Proof.
  intros Hw Hk Hres. unfold solve_and_classify. simpl.
  rewrite Hres, Hw, Hk. reflexivity.
Qed.

(** One tick at natural completion: the solver says [Finished] on the loaded
    segment, nothing is queued, nothing is to be reloaded. *)
Lemma cartesian_step_completes rs period g :
  motion_finished_ g = false -> reload_ g = false ->
  waypoints_ g = [] -> keep_running_ g = false ->
  fst (fst (ruckig.update (trajectory_generator_ g) (input_para_ g)
                          (output_para_ g))) = ruckig.Finished ->
  let g1 := set_solved (ruckig.update (trajectory_generator_ g)
                                      (input_para_ g) (output_para_ g))
                       (tick rs period g) in
  let out := getPoseFromOutput rs (output_para_ g1) in
  step rs period g
  = if (current_cooldown_iteration g <? cooldown_iterations)%N
    then (bump_cooldown g1, out)
    else (set_motion_finished_ true g1,
          franka.CartesianPose.MotionFinished out).
Proof.
  intros Hf Hr Hw Hk Hfin. cbv zeta.
  rewrite (cartesian_step_running rs period g Hf).
  destruct (cartesian_steps_of_pos period) as [k ->]. simpl.
  unfold sub_step.
  rewrite (cartesian_reload_idle rs (tick rs period g) Hr).
  rewrite (cartesian_solve_completes rs (tick rs period g) Hw Hk Hfin).
  change (current_cooldown_iteration (tick rs period g))
    with (current_cooldown_iteration g).
  destruct (_ <? _)%N; reflexivity.
Qed.

(** Ticks at natural completion: the same shape as after [stop]. *)
Lemma cartesian_completing_run ticks : forall g,
  motion_finished_ g = false -> reload_ g = false ->
  waypoints_ g = [] -> keep_running_ g = false ->
  finished_on_each ticks g ->
  map franka.CartesianPose.motion_finished (snd (run (ticks_only ticks) g))
  = repeat false (Nat.min (cooldown_left g) (length ticks))
    ++ repeat true (length ticks - cooldown_left g).
Proof.
  induction ticks as [|[rs period] ticks IH]; intros g Hf Hr Hw Hk Hfin.
  - simpl. now rewrite Nat.min_0_r.
  - destruct Hfin as [Hcall Hrest]. simpl in Hrest. simpl.
    rewrite (cartesian_step_completes rs period g Hf Hr Hw Hk (Hcall Hf))
      in Hrest |- *.
    destruct (current_cooldown_iteration g <? cooldown_iterations)%N eqn:Hlt.
    + rewrite (cartesian_cooldown_left_bump g Hlt).
      simpl in Hrest.
      match goal with
      | |- context [run _ ?g1] =>
          specialize (IH g1 Hf Hr Hw Hk Hrest);
          change (cooldown_left g1) with (cooldown_left (bump_cooldown g)) in IH;
          destruct (run (ticks_only ticks) g1) as [g2 cs]
      end.
      simpl in *. now rewrite IH.
    + rewrite (cartesian_cooldown_left_spent g Hlt).
      match goal with
      | |- context [run _ ?g1] =>
          destruct (cartesian_finishing_run ticks g1 eq_refl) as [Hflags _];
          change (cooldown_left g1) with (cooldown_left g) in Hflags;
          destruct (run (ticks_only ticks) g1) as [g2 cs]
      end.
      rewrite (cartesian_cooldown_left_spent g Hlt) in Hflags.
      simpl in *. rewrite Hflags, Nat.sub_0_r. reflexivity.
Qed.

(** ** Solver errors *)

(** The error branch of the Cartesian loop takes every result that is
    neither [Finished] nor [Working]. *)
Lemma cartesian_solve_any_error rs g :
  let r := ruckig.update (trajectory_generator_ g) (input_para_ g)
                         (output_para_ g) in
  ruckig.is_error (fst (fst r)) = true ->
  solve_and_classify rs g
  = (set_motion_finished_ true (set_solved r g),
     Some (franka.CartesianPose.MotionFinished
             (franka.CartesianPose.make (franka.RobotState.O_T_EE_c rs)))).
Proof.
  cbv zeta. unfold solve_and_classify.
  destruct (ruckig.update (trajectory_generator_ g) (input_para_ g)
                          (output_para_ g)) as [[res otg] out].
  simpl. destruct res; simpl; intros; try discriminate; reflexivity.
Qed.

(** ** [isRunning] across a tick *)

Lemma cartesian_step_isRunning rs period g :
  isRunning g = true ->
  isRunning (fst (step rs period g))
  = negb (franka.CartesianPose.motion_finished (snd (step rs period g))).
Proof.
  unfold isRunning. intros Hf. apply negb_true_iff in Hf.
  rewrite (cartesian_step_running rs period g Hf).
  now rewrite (cartesian_step_loop_flag _ rs (tick rs period g) Hf).
Qed.

Lemma cartesian_step_stays_finished rs period g :
  motion_finished_ g = true ->
  motion_finished_ (fst (step rs period g)) = true.
Proof.
  intros Hf. rewrite (cartesian_step_finishing rs period g Hf).
  destruct (_ <? _)%N; assumption.
Qed.

End CartesianFacts.

(** * The claims *)

Section Claims.
Context {S : ruckig.Solver} {L : Panda.Limits} {Geo : Eigen.Geometry}.

(** C1, as the code has it: [clearWaypoints] empties the queue and leaves
    the loaded waypoint and the solver's input parameters as they are, but
    it also requests a reload.  The next tick of a generator that is still
    running therefore replaces the in-flight target by a hold target at the
    commanded state of that tick (commanded joint positions, commanded
    pose), whatever the solver answers and however many sub-steps the tick
    takes. *)
Theorem C1_clearWaypoints_requests_reload :
  (forall g : Joint.t,
      let g' := Joint.clearWaypoints g in
      Joint.waypoints_ g' = []
      /\ Joint.current_waypoint_ g' = Joint.current_waypoint_ g
      /\ Joint.input_para_ g' = Joint.input_para_ g
      /\ Joint.reload_ g' = true
      /\ forall rs period,
          Joint.motion_finished_ g = false ->
          let g'' := fst (Joint.step rs period g') in
          Joint.current_waypoint_ g''
          = Some (JointMotion.make (franka.RobotState.q_d rs))
          /\ ruckig.target_position (Joint.input_para_ g'')
             = franka.RobotState.q_d rs)
  /\ (forall g : Cartesian.t,
      let g' := Cartesian.clearWaypoints g in
      Cartesian.waypoints_ g' = []
      /\ Cartesian.current_waypoint_ g' = Cartesian.current_waypoint_ g
      /\ Cartesian.input_para_ g' = Cartesian.input_para_ g
      /\ Cartesian.reload_ g' = true
      /\ forall rs period,
          Cartesian.motion_finished_ g = false ->
          let g'' := fst (Cartesian.step rs period g') in
          Cartesian.current_waypoint_ g''
          = Some (CartesianMotion.make
                    (Eigen.Map (franka.RobotState.O_T_EE_c rs)))
          /\ ruckig.target_position (Cartesian.input_para_ g'')
             = Cartesian.target_vector
                 (Eigen.Map (franka.RobotState.O_T_EE_c rs))).
Proof.
  split; intros g; cbv zeta.
  - split; [apply joint_pop_all_nil|].
    do 3 (split; [reflexivity|]).
    intros rs period Hf.
    destruct (joint_step_loads rs period (Joint.clearWaypoints g))
      as (_ & Hc & Ht);
      [exact Hf | reflexivity | simpl; now rewrite joint_pop_all_nil |].
    simpl in Hc, Ht. rewrite joint_pop_all_nil in Hc, Ht. now split.
  - split; [apply cartesian_pop_all_nil|].
    do 3 (split; [reflexivity|]).
    intros rs period Hf.
    destruct (cartesian_step_loads rs period (Cartesian.clearWaypoints g))
      as (_ & Hc & Ht);
      [exact Hf | reflexivity | simpl; now rewrite cartesian_pop_all_nil |].
    simpl in Hc, Ht. rewrite cartesian_pop_all_nil in Hc, Ht. now split.
Qed.

(** C2, as the code has it: [addWaypoint] and [addWaypoints] append to the
    queue and request a reload every time, whether or not the queue was
    empty.  The next sub-step then takes what [loadNextWaypoint] finds, also
    when a segment was in flight: the front of the queue, which it pops, or,
    after [addWaypoints] of an empty vector on an empty queue, the hold
    target at the commanded state of the tick. *)
Theorem C2_addWaypoint_always_requests_reload :
  (forall (w : JointMotion.t) (ws : list JointMotion.t) (g : Joint.t),
      Joint.waypoints_ (Joint.addWaypoint w g) = Joint.waypoints_ g ++ [w]
      /\ Joint.reload_ (Joint.addWaypoint w g) = true
      /\ Joint.input_para_ (Joint.addWaypoint w g) = Joint.input_para_ g
      /\ Joint.waypoints_ (Joint.addWaypoints ws g) = Joint.waypoints_ g ++ ws
      /\ Joint.reload_ (Joint.addWaypoints ws g) = true
      /\ (forall rs,
          let g' := fst (Joint.sub_step rs (Joint.addWaypoint w g)) in
          Joint.current_waypoint_ g' = Some (hd w (Joint.waypoints_ g))
          /\ ruckig.target_position (Joint.input_para_ g')
             = JointMotion.target (hd w (Joint.waypoints_ g)))
      /\ Joint.input_para_ (Joint.addWaypoints ws g) = Joint.input_para_ g
      /\ (forall rs,
          let g' := fst (Joint.sub_step rs (Joint.addWaypoints ws g)) in
          let next := hd (JointMotion.make (franka.RobotState.q_d rs))
                         (Joint.waypoints_ g ++ ws) in
          Joint.current_waypoint_ g' = Some next
          /\ ruckig.target_position (Joint.input_para_ g')
             = JointMotion.target next
          /\ Joint.waypoints_ g' = tl (Joint.waypoints_ g ++ ws)))
  /\ (forall (w : CartesianMotion.t) (ws : list CartesianMotion.t)
             (g : Cartesian.t),
      Cartesian.waypoints_ (Cartesian.addWaypoint w g)
      = Cartesian.waypoints_ g ++ [w]
      /\ Cartesian.reload_ (Cartesian.addWaypoint w g) = true
      /\ Cartesian.input_para_ (Cartesian.addWaypoint w g)
         = Cartesian.input_para_ g
      /\ Cartesian.waypoints_ (Cartesian.addWaypoints ws g)
         = Cartesian.waypoints_ g ++ ws
      /\ Cartesian.reload_ (Cartesian.addWaypoints ws g) = true
      /\ (forall rs,
          let g' := fst (Cartesian.sub_step rs (Cartesian.addWaypoint w g)) in
          Cartesian.current_waypoint_ g'
          = Some (hd w (Cartesian.waypoints_ g))
          /\ ruckig.target_position (Cartesian.input_para_ g')
             = Cartesian.target_vector
                 (Cartesian.resolve rs (hd w (Cartesian.waypoints_ g))))
      /\ Cartesian.input_para_ (Cartesian.addWaypoints ws g)
         = Cartesian.input_para_ g
      /\ (forall rs,
          let g' := fst (Cartesian.sub_step rs (Cartesian.addWaypoints ws g)) in
          let next := hd (CartesianMotion.make
                            (Eigen.Map (franka.RobotState.O_T_EE_c rs)))
                         (Cartesian.waypoints_ g ++ ws) in
          Cartesian.current_waypoint_ g' = Some next
          /\ ruckig.target_position (Cartesian.input_para_ g')
             = Cartesian.target_vector (Cartesian.resolve rs next)
          /\ Cartesian.waypoints_ g' = tl (Cartesian.waypoints_ g ++ ws))).
Proof.
  split; intros w ws g.
  - rewrite joint_addWaypoints_eq.
    do 5 (split; [reflexivity|]).
    split; [|split; [reflexivity|]]; intros rs; cbv zeta;
      unfold Joint.sub_step.
    + destruct (joint_reload_loads rs (Joint.addWaypoint w g) eq_refl)
        as (Hc & _ & Ht & _).
      destruct (joint_solve_frame
                  (Joint.reload_if_requested rs (Joint.addWaypoint w g)))
        as (_ & _ & Hc' & Ht' & _).
      simpl in Hc, Ht.
      destruct (Joint.waypoints_ g); simpl in *; split; congruence.
    + match goal with
      | |- context [Joint.reload_if_requested rs ?g1] =>
          destruct (joint_reload_loads rs g1 eq_refl) as (Hc & Hw & Ht & _);
          destruct (joint_solve_frame (Joint.reload_if_requested rs g1))
            as (_ & Hw' & Hc' & Ht' & _)
      end.
      simpl in Hc, Hw, Ht. rewrite Hc', Ht', Hw'. auto.
  - rewrite cartesian_addWaypoints_eq.
    do 5 (split; [reflexivity|]).
    split; [|split; [reflexivity|]]; intros rs; cbv zeta;
      unfold Cartesian.sub_step.
    + destruct (cartesian_reload_loads rs (Cartesian.addWaypoint w g) eq_refl)
        as (Hc & _ & Ht & _).
      destruct (cartesian_solve_frame rs
                  (Cartesian.reload_if_requested rs
                     (Cartesian.addWaypoint w g)))
        as (_ & _ & Hc' & Ht' & _).
      simpl in Hc, Ht.
      destruct (Cartesian.waypoints_ g); simpl in *; split; congruence.
    + match goal with
      | |- context [Cartesian.reload_if_requested rs ?g1] =>
          destruct (cartesian_reload_loads rs g1 eq_refl)
            as (Hc & Hw & Ht & _);
          destruct (cartesian_solve_frame rs
                      (Cartesian.reload_if_requested rs g1))
            as (_ & Hw' & Hc' & Ht' & _)
      end.
      simpl in Hc, Hw, Ht. rewrite Hc', Ht', Hw'. auto.
Qed.

(** C3 on the code.  The Cartesian loop ends the motion on every result that
    is neither [Working] nor [Finished]: the flag is set and the sentinel is
    returned by the same call.  The joint loop does so for [Error] alone; on
    a classified error ([ErrorInvalidInput] and the like) the sub-step falls
    through to [pass_to_input], the generator keeps running and the loop
    goes on to the next solver call. *)
Theorem C3_error_results_by_variant :
  (forall (g : Joint.t) rs,
      let g0 := Joint.reload_if_requested rs g in
      let r := ruckig.update (Joint.trajectory_generator_ g0)
                             (Joint.input_para_ g0) (Joint.output_para_ g0) in
      (ruckig.is_error (fst (fst r)) = true ->
       ruckig.eqb (fst (fst r)) ruckig.Error = false ->
       snd (Joint.sub_step rs g) = None
       /\ Joint.motion_finished_ (fst (Joint.sub_step rs g))
          = Joint.motion_finished_ g
       /\ Joint.result (fst (Joint.sub_step rs g)) = fst (fst r))
      /\ (fst (fst r) = ruckig.Error ->
          Joint.sub_step rs g
          = (Joint.set_motion_finished_ true (Joint.set_solved r g0),
             Some (franka.JointPositions.MotionFinished
                     (franka.JointPositions.make
                        (ruckig.new_position (snd r)))))))
  /\ (forall (g : Cartesian.t) rs,
      let g0 := Cartesian.reload_if_requested rs g in
      let r := ruckig.update (Cartesian.trajectory_generator_ g0)
                             (Cartesian.input_para_ g0)
                             (Cartesian.output_para_ g0) in
      ruckig.is_error (fst (fst r)) = true ->
      Cartesian.sub_step rs g
      = (Cartesian.set_motion_finished_ true (Cartesian.set_solved r g0),
         Some (franka.CartesianPose.MotionFinished
                 (franka.CartesianPose.make
                    (franka.RobotState.O_T_EE_c rs))))).
Proof.
  split; intros g rs; cbv zeta.
  - split.
    + intros He Hn. unfold Joint.sub_step.
      rewrite (joint_solve_classified_error _ He Hn). simpl.
      repeat split. apply (joint_reload_frame rs g).
    + intros He. unfold Joint.sub_step.
      now rewrite (joint_solve_error _ He).
  - intros He. unfold Cartesian.sub_step.
    now rewrite (cartesian_solve_any_error rs _ He).
Qed.

(** C4, as the code has it.  A generator whose finished flag is set (after
    [stop], or after the sentinel) answers each tick with one command
    wrapping the commanded state of that tick: a plain command while its
    cooldown counter is below 5, the sentinel from then on.  A generator at
    natural completion (nothing queued, nothing to reload, not kept
    running) whose solver says [Finished] on the call a tick makes answers
    that tick with the solver's output of that call, plain and with the
    counter incremented while the counter is below 5, as the sentinel
    otherwise; over ticks on each of which the solver says so, the pattern
    is the same as after [stop].  In both cases the number of plain
    cooldown commands is [cooldown_left], what is left of the budget: five
    commands and then the sentinel for a generator whose counter is 0.  A
    solver error that the loop catches is outside this pattern: the
    sentinel is returned by the sub-step that sees it. *)
Theorem C4_cooldown_follows_the_counter :
  (forall (g : Joint.t) ticks,
      Joint.motion_finished_ g = true ->
      map franka.JointPositions.motion_finished
          (snd (Joint.run (Joint.ticks_only ticks) g))
      = repeat false (Nat.min (Joint.cooldown_left g) (length ticks))
        ++ repeat true (length ticks - Joint.cooldown_left g)
      /\ map franka.JointPositions.q
             (snd (Joint.run (Joint.ticks_only ticks) g))
         = map (fun tk => franka.RobotState.q_d (fst tk)) ticks)
  /\ (forall (g : Joint.t) ticks,
      Joint.motion_finished_ g = false -> Joint.reload_ g = false ->
      Joint.waypoints_ g = [] -> Joint.keep_running_ g = false ->
      Joint.finished_on_each ticks g ->
      map franka.JointPositions.motion_finished
          (snd (Joint.run (Joint.ticks_only ticks) g))
      = repeat false (Nat.min (Joint.cooldown_left g) (length ticks))
        ++ repeat true (length ticks - Joint.cooldown_left g))
  /\ (forall (g : Cartesian.t) ticks,
      Cartesian.motion_finished_ g = true ->
      map franka.CartesianPose.motion_finished
          (snd (Cartesian.run (Cartesian.ticks_only ticks) g))
      = repeat false (Nat.min (Cartesian.cooldown_left g) (length ticks))
        ++ repeat true (length ticks - Cartesian.cooldown_left g)
      /\ map franka.CartesianPose.O_T_EE
             (snd (Cartesian.run (Cartesian.ticks_only ticks) g))
         = map (fun tk => franka.RobotState.O_T_EE_c (fst tk)) ticks)
  /\ (forall (g : Cartesian.t) ticks,
      Cartesian.motion_finished_ g = false -> Cartesian.reload_ g = false ->
      Cartesian.waypoints_ g = [] -> Cartesian.keep_running_ g = false ->
      Cartesian.finished_on_each ticks g ->
      map franka.CartesianPose.motion_finished
          (snd (Cartesian.run (Cartesian.ticks_only ticks) g))
      = repeat false (Nat.min (Cartesian.cooldown_left g) (length ticks))
        ++ repeat true (length ticks - Cartesian.cooldown_left g))
  /\ (forall (g : Joint.t) rs,
      let g0 := Joint.reload_if_requested rs g in
      fst (fst (ruckig.update (Joint.trajectory_generator_ g0)
                              (Joint.input_para_ g0) (Joint.output_para_ g0)))
      = ruckig.Error ->
      exists c, snd (Joint.sub_step rs g) = Some c
                /\ franka.JointPositions.motion_finished c = true)
  /\ (forall (g : Cartesian.t) rs,
      let g0 := Cartesian.reload_if_requested rs g in
      ruckig.is_error
        (fst (fst (ruckig.update (Cartesian.trajectory_generator_ g0)
                                 (Cartesian.input_para_ g0)
                                 (Cartesian.output_para_ g0)))) = true ->
      exists c, snd (Cartesian.sub_step rs g) = Some c
                /\ franka.CartesianPose.motion_finished c = true)
  /\ (forall (g : Joint.t) rs period,
      Joint.motion_finished_ g = false -> Joint.reload_ g = false ->
      Joint.waypoints_ g = [] -> Joint.keep_running_ g = false ->
      let r := ruckig.update (Joint.trajectory_generator_ g)
                             (Joint.input_para_ g) (Joint.output_para_ g) in
      fst (fst r) = ruckig.Finished ->
      let g1 := Joint.set_solved r (Joint.tick rs period g) in
      let out := franka.JointPositions.make (ruckig.new_position (snd r)) in
      Joint.step rs period g
      = if (Joint.current_cooldown_iteration g
            <? Joint.cooldown_iterations)%N
        then (Joint.bump_cooldown g1, out)
        else (Joint.set_motion_finished_ true g1,
              franka.JointPositions.MotionFinished out))
  /\ (forall (g : Cartesian.t) rs period,
      Cartesian.motion_finished_ g = false -> Cartesian.reload_ g = false ->
      Cartesian.waypoints_ g = [] -> Cartesian.keep_running_ g = false ->
      let r := ruckig.update (Cartesian.trajectory_generator_ g)
                             (Cartesian.input_para_ g)
                             (Cartesian.output_para_ g) in
      fst (fst r) = ruckig.Finished ->
      let g1 := Cartesian.set_solved r (Cartesian.tick rs period g) in
      let out := Cartesian.getPoseFromOutput rs (snd r) in
      Cartesian.step rs period g
      = if (Cartesian.current_cooldown_iteration g
            <? Cartesian.cooldown_iterations)%N
        then (Cartesian.bump_cooldown g1, out)
        else (Cartesian.set_motion_finished_ true g1,
              franka.CartesianPose.MotionFinished out)).
Proof.
  split; [intros; now apply joint_finishing_run|].
  split; [intros; now apply joint_completing_run|].
  split; [intros; now apply cartesian_finishing_run|].
  split; [intros; now apply cartesian_completing_run|].
  split; [|split; [|split]].
  - intros g rs; cbv zeta; intros He.
    unfold Joint.sub_step. rewrite (joint_solve_error _ He).
    eexists. split; reflexivity.
  - intros g rs; cbv zeta; intros He.
    unfold Cartesian.sub_step. rewrite (cartesian_solve_any_error rs _ He).
    eexists. split; reflexivity.
  - intros g rs period Hf Hr Hw Hk. cbv zeta. intros Hfin.
    exact (joint_step_completes rs period g Hf Hr Hw Hk Hfin).
  - intros g rs period Hf Hr Hw Hk. cbv zeta. intros Hfin.
    exact (cartesian_step_completes rs period g Hf Hr Hw Hk Hfin).
Qed.

(** C5, as the code has it: a RELATIVE waypoint is resolved when it is
    loaded, against the measured pose [O_T_EE] of the robot state handed to
    that tick.  The target given to the solver is the translation and the
    normalised rotation of (that pose) * (the waypoint's transform): its
    first three entries are the waypoint's translation turned by the
    measured rotation and shifted by the measured translation, its last
    four the normalised quaternion of the product of the two rotations.  In
    the two-waypoint sequence, once the first segment is done and the
    RELATIVE waypoint is the one left in the queue, the tick that loads it
    resolves it in this way against the pose measured at that tick.  Neither
    the pose at [start] nor the first waypoint's target pose enters. *)
Theorem C5_relative_target_resolved_when_loaded :
  (forall (g : Cartesian.t) rs w,
      CartesianMotion.reference_frame w = ReferenceFrame.RELATIVE ->
      let A := Eigen.linear (Eigen.Map (franka.RobotState.O_T_EE rs)) in
      let p := Eigen.translation (Eigen.Map (franka.RobotState.O_T_EE rs)) in
      let B := Eigen.linear (CartesianMotion.target w) in
      let t := Eigen.translation (CartesianMotion.target w) in
      let i := Cartesian.input_para_ (Cartesian.setInputTarget rs w g) in
      ruckig.target_position i
      = Cartesian.target_vector
          (Eigen.compose (Eigen.Map (franka.RobotState.O_T_EE rs))
                         (CartesianMotion.target w))
      /\ firstn 3 (ruckig.target_position i)
         = [Eigen.m00 A * Eigen.vx t + Eigen.m01 A * Eigen.vy t
            + Eigen.m02 A * Eigen.vz t + Eigen.vx p;
            Eigen.m10 A * Eigen.vx t + Eigen.m11 A * Eigen.vy t
            + Eigen.m12 A * Eigen.vz t + Eigen.vy p;
            Eigen.m20 A * Eigen.vx t + Eigen.m21 A * Eigen.vy t
            + Eigen.m22 A * Eigen.vz t + Eigen.vz p]%float
      /\ skipn 3 (ruckig.target_position i)
         = (let q := Eigen.normalize
                       (Eigen.Quaterniond_of_rotation (Eigen.mul3 A B)) in
            [Eigen.x q; Eigen.y q; Eigen.z q; Eigen.w q]))
  /\ (forall (g : Cartesian.t) rs period b,
      Cartesian.motion_finished_ g = false ->
      Cartesian.reload_ g = true ->
      Cartesian.waypoints_ g = [b] ->
      CartesianMotion.reference_frame b = ReferenceFrame.RELATIVE ->
      let g' := fst (Cartesian.step rs period g) in
      Cartesian.current_waypoint_ g' = Some b
      /\ ruckig.target_position (Cartesian.input_para_ g')
         = ruckig.target_position
             (Cartesian.input_para_ (Cartesian.setInputTarget rs b g))).
Proof.
  split.
  - intros g rs w Hrel. cbv zeta. simpl. unfold Cartesian.resolve.
    rewrite Hrel. simpl. repeat split.
  - intros g rs period b Hf Hr Hw Hrel. cbv zeta.
    destruct (cartesian_step_loads rs period g Hf Hr) as (_ & Hc & Ht);
      [now rewrite Hw|].
    rewrite Hw in Hc, Ht. simpl in Hc, Ht.
    split; [exact Hc | exact Ht].
Qed.

(** C6 on the code.  [start] seeds the solver's current state from the
    measured state with zero velocity and acceleration, sets a target with
    zero velocity and acceleration, and applies the limits with unit
    per-waypoint scaling.  The Cartesian generator takes the target from the
    same measured pose as the current position; the joint generator takes
    the current position from the measured joints [q] and the target from
    the commanded joints [q_d]. *)
Theorem C6_start_seeds_solver_input :
  (forall robot rs (g : Joint.t),
      let i := Joint.input_para_ (Joint.start robot rs g) in
      ruckig.current_position i = franka.RobotState.q rs
      /\ ruckig.current_velocity i = zeros7
      /\ ruckig.current_acceleration i = zeros7
      /\ ruckig.target_position i = franka.RobotState.q_d rs
      /\ ruckig.target_velocity i = zeros7
      /\ ruckig.target_acceleration i = zeros7
      /\ ruckig.max_velocity i
         = map (fun m => m * Panda.velocity_rel robot * 1)%float
               Panda.max_joint_velocity
      /\ ruckig.max_acceleration i
         = map (fun m => 0.3 * m * Panda.acceleration_rel robot * 1)%float
               Panda.max_joint_acceleration
      /\ ruckig.max_jerk i
         = map (fun m => 0.3 * m * Panda.jerk_rel robot * 1)%float
               Panda.max_joint_jerk
      /\ Joint.reload_ (Joint.start robot rs g) = true
      /\ Joint.motion_finished_ (Joint.start robot rs g) = false)
  /\ (forall robot rs (g : Cartesian.t),
      let i := Cartesian.input_para_ (Cartesian.start robot rs g) in
      let X := Eigen.Map (franka.RobotState.O_T_EE rs) in
      ruckig.current_position i
      = pose7 (Eigen.translation X)
              (Eigen.Quaterniond_of_rotation (Eigen.rotation X))
      /\ ruckig.current_velocity i = zeros7
      /\ ruckig.current_acceleration i = zeros7
      /\ ruckig.target_position i = ruckig.current_position i
      /\ ruckig.target_velocity i = zeros7
      /\ ruckig.target_acceleration i = zeros7
      /\ ruckig.max_velocity i
         = (repeat (0.8 * 0.4 * Panda.max_translation_velocity
                    * Panda.velocity_rel robot * 1) 3
            ++ repeat (0.5 * Panda.max_rotation_velocity
                       * Panda.velocity_rel robot * 1) 4)%float
      /\ ruckig.max_acceleration i
         = (repeat (0.3 * 0.4 * 0.4 * Panda.max_translation_acceleration
                    * Panda.acceleration_rel robot * 1) 3
            ++ repeat (0.5 * 0.3 * Panda.max_rotation_acceleration
                       * Panda.acceleration_rel robot * 1) 4)%float
      /\ ruckig.max_jerk i
         = (repeat (0.3 * 0.4 * 0.4 * Panda.max_translation_jerk
                    * Panda.jerk_rel robot * 1) 3
            ++ repeat (0.5 * 0.3 * Panda.max_rotation_jerk
                       * Panda.jerk_rel robot * 1) 4)%float
      /\ Cartesian.reload_ (Cartesian.start robot rs g) = true
      /\ Cartesian.motion_finished_ (Cartesian.start robot rs g) = false).
Proof.
  split; intros robot rs g; cbv zeta; simpl; repeat split.
Qed.



(** C9, as the code has it: [isRunning] is the negation of the finished
    flag.  [stop] sets the flag, so [isRunning] is false from the call of
    [stop] on, through the cooldown ticks that follow.  A generator that is
    running before a tick is still running after it exactly when the tick
    did not return the sentinel, so it stays running through the cooldown
    of a natural completion.  Once false, it stays false across ticks. *)
Theorem C9_isRunning_negates_finished_flag :
  (forall g : Joint.t,
      Joint.isRunning g = negb (Joint.motion_finished_ g)
      /\ Joint.isRunning (Joint.stop g) = false
      /\ forall rs period,
          (Joint.isRunning g = true ->
           Joint.isRunning (fst (Joint.step rs period g))
           = negb (franka.JointPositions.motion_finished
                     (snd (Joint.step rs period g))))
          /\ (Joint.isRunning g = false ->
              Joint.isRunning (fst (Joint.step rs period g)) = false))
  /\ (forall g : Cartesian.t,
      Cartesian.isRunning g = negb (Cartesian.motion_finished_ g)
      /\ Cartesian.isRunning (Cartesian.stop g) = false
      /\ forall rs period,
          (Cartesian.isRunning g = true ->
           Cartesian.isRunning (fst (Cartesian.step rs period g))
           = negb (franka.CartesianPose.motion_finished
                     (snd (Cartesian.step rs period g))))
          /\ (Cartesian.isRunning g = false ->
              Cartesian.isRunning (fst (Cartesian.step rs period g)) = false)).
Proof.
  split; intros g; (split; [reflexivity|]); (split; [reflexivity|]);
    intros rs period; split.
  - apply joint_step_isRunning.
  - unfold Joint.isRunning. intros H. apply negb_false_iff in H.
    now rewrite (joint_step_stays_finished rs period g H).
  - apply cartesian_step_isRunning.
  - unfold Cartesian.isRunning. intros H. apply negb_false_iff in H.
    now rewrite (cartesian_step_stays_finished rs period g H).
Qed.

(** C10: [start] leaves the cooldown counter as it is: it binds the session
    object, sets the reload flag, clears the finished flag and rewrites the
    solver's input parameters, and nothing else.  A counter that has reached
    the budget is changed by no call at all, so in every later cycle the
    tick that finds the finished flag set, or that reaches completion (the
    solver says [Finished], nothing queued, not kept running), returns the
    sentinel at once. *)
Theorem C10_start_keeps_cooldown_counter :
  (forall robot rs (g : Joint.t),
      Joint.current_cooldown_iteration (Joint.start robot rs g)
      = Joint.current_cooldown_iteration g
      /\ Joint.start robot rs g
         = Joint.mk robot (Joint.time_ g) false (Joint.waypoints_ g)
             (Joint.current_waypoint_ g) (Joint.trajectory_generator_ g)
             (Joint.input_para_ (Joint.start robot rs g))
             (Joint.output_para_ g) (Joint.result g) true
             (Joint.keep_running_ g) (Joint.current_cooldown_iteration g))
  /\ (forall (g : Joint.t) acts,
      (Joint.cooldown_iterations <= Joint.current_cooldown_iteration g)%N ->
      Joint.current_cooldown_iteration (fst (Joint.run acts g))
      = Joint.current_cooldown_iteration g)
  /\ (forall (g : Joint.t) rs period,
      (Joint.cooldown_iterations <= Joint.current_cooldown_iteration g)%N ->
      Joint.motion_finished_ g = true
      \/ Joint.at_completion (fst (Joint.step rs period g)) = true ->
      franka.JointPositions.motion_finished (snd (Joint.step rs period g))
      = true)
  /\ (forall robot rs (g : Cartesian.t),
      Cartesian.current_cooldown_iteration (Cartesian.start robot rs g)
      = Cartesian.current_cooldown_iteration g
      /\ Cartesian.start robot rs g
         = Cartesian.mk robot (Cartesian.time_ g) false
             (Cartesian.waypoints_ g) (Cartesian.current_waypoint_ g)
             (Cartesian.trajectory_generator_ g)
             (Cartesian.input_para_ (Cartesian.start robot rs g))
             (Cartesian.output_para_ g) (Cartesian.result g) true
             (Cartesian.keep_running_ g)
             (Cartesian.current_cooldown_iteration g))
  /\ (forall (g : Cartesian.t) acts,
      (Cartesian.cooldown_iterations
       <= Cartesian.current_cooldown_iteration g)%N ->
      Cartesian.current_cooldown_iteration (fst (Cartesian.run acts g))
      = Cartesian.current_cooldown_iteration g)
  /\ (forall (g : Cartesian.t) rs period,
      (Cartesian.cooldown_iterations
       <= Cartesian.current_cooldown_iteration g)%N ->
      Cartesian.motion_finished_ g = true
      \/ Cartesian.at_completion (fst (Cartesian.step rs period g)) = true ->
      franka.CartesianPose.motion_finished
        (snd (Cartesian.step rs period g)) = true).
Proof.
  split; [intros; split; reflexivity|].
  split; [intros; now apply joint_run_counter|].
  split.
  { intros g rs period Hc Hdone.
    destruct (Joint.motion_finished_ g) eqn:Hf.
    - rewrite (joint_step_finishing rs period g Hf).
      apply N.ltb_ge in Hc. now rewrite Hc.
    - destruct Hdone as [Hd|Hd]; [discriminate|].
      rewrite (joint_step_running rs period g Hf) in *.
      destruct (joint_steps_of_pos period) as [k Hk]. rewrite Hk in *.
      apply joint_step_loop_completion; auto. discriminate. }
  split; [intros; split; reflexivity|].
  split; [intros; now apply cartesian_run_counter|].
  intros g rs period Hc Hdone.
  destruct (Cartesian.motion_finished_ g) eqn:Hf.
  - rewrite (cartesian_step_finishing rs period g Hf).
    apply N.ltb_ge in Hc. now rewrite Hc.
  - destruct Hdone as [Hd|Hd]; [discriminate|].
    rewrite (cartesian_step_running rs period g Hf) in *.
    destruct (cartesian_steps_of_pos period) as [k Hk]. rewrite Hk in *.
    apply cartesian_step_loop_completion; auto. discriminate.
Qed.

End Claims.

(** * Concrete runs

    The statements above evaluated on the stand-in solver, the Franka limits
    and Eigen's conversions on doubles. *)

Ltac run_it := cbv zeta; repeat split; vm_compute; reflexivity.

(** C1 as stated fails.  A joint generator is in flight towards 1 (the
    solver said [Working], the command stands at 0.25) with one more
    waypoint queued.  After [clearWaypoints], the next tick does not go on
    with the segment: it loads a hold target at the commanded 0.25, and the
    target at 1 is gone. *)
Lemma C1_counterexample :
  let g := Demo.joint_midflight in
  let g'' := fst (@Joint.step Demo.solver Demo.limits (Demo.rs_at 0.25)
                              Demo.period1 (Joint.clearWaypoints g)) in
  (Joint.motion_finished_ g = false
   /\ Joint.result g = ruckig.Working
   /\ Joint.current_waypoint_ g = Some (Demo.jw 1)
   /\ ruckig.target_position (Joint.input_para_ g) = repeat 1%float 7)
  /\ (Joint.current_waypoint_ g'' = Some (Demo.jw 0.25)
      /\ ruckig.target_position (Joint.input_para_ g'') = repeat 0.25%float 7)
  /\ ruckig.target_position (Joint.input_para_ g'')
     <> ruckig.target_position (Joint.input_para_ g).
Proof.
  cbv zeta. split; [run_it|]. split; [run_it|].
  intros H. apply (f_equal (fun l => Demo.same l (repeat 1%float 7))) in H.
  vm_compute in H. discriminate H.
Qed.

(** C1 on that run: the tick after [clearWaypoints] holds at the commanded
    joint positions of its robot state. *)
Lemma C1_witness :
  let g := Demo.joint_midflight in
  let g'' := fst (@Joint.step Demo.solver Demo.limits (Demo.rs_at 0.25)
                              Demo.period1 (Joint.clearWaypoints g)) in
  Joint.current_waypoint_ g''
  = Some (JointMotion.make (franka.RobotState.q_d (Demo.rs_at 0.25)))
  /\ ruckig.target_position (Joint.input_para_ g'')
     = franka.RobotState.q_d (Demo.rs_at 0.25).
Proof.
  cbv zeta.
  destruct (proj1 (@C1_clearWaypoints_requests_reload
                     Demo.solver Demo.limits Demo.geometry)
                  Demo.joint_midflight) as (_ & _ & _ & _ & Hstep).
  apply Hstep. vm_compute. reflexivity.
Defined.

(** C2 as stated fails.  The same generator has a non-empty queue and no
    reload pending; [addWaypoint] requests one all the same, and the next
    tick drops the segment towards 1 for the queued waypoint at 2. *)
Lemma C2_counterexample :
  let g := Demo.joint_midflight in
  let g' := Joint.addWaypoint (Demo.jw 3) g in
  let g'' := fst (@Joint.step Demo.solver Demo.limits (Demo.rs_at 0.25)
                              Demo.period1 g') in
  (Joint.waypoints_ g = [Demo.jw 2]
   /\ Joint.reload_ g = false
   /\ Joint.result g = ruckig.Working
   /\ Joint.current_waypoint_ g = Some (Demo.jw 1))
  /\ Joint.reload_ g' = true
  /\ Joint.current_waypoint_ g'' = Some (Demo.jw 2)
  /\ ruckig.target_position (Joint.input_para_ g'') = repeat 2%float 7.
Proof. run_it. Qed.

(** The failing input of C3: a waypoint with a negative velocity multiplier
    makes the solver answer [ErrorInvalidInput]; the joint sub-step goes
    on. *)
Lemma C3_witness :
  let g := Demo.joint_invalid in
  let rs := Demo.rs_at 0 in
  snd (@Joint.sub_step Demo.solver Demo.limits rs g) = None
  /\ Joint.motion_finished_ (fst (@Joint.sub_step Demo.solver Demo.limits rs g))
     = Joint.motion_finished_ g
  /\ Joint.result (fst (@Joint.sub_step Demo.solver Demo.limits rs g))
     = ruckig.ErrorInvalidInput.
Proof.
  cbv zeta.
  exact (proj1 (proj1 (@C3_error_results_by_variant
                         Demo.solver Demo.limits Demo.geometry)
                      Demo.joint_invalid (Demo.rs_at 0))
               eq_refl eq_refl).
Defined.

(** The same input through a whole tick of each variant: the joint
    generator answers with a plain command and is still running, the
    Cartesian generator answers with the sentinel. *)
Lemma C3_failing_input_run :
  let j := @Joint.step Demo.solver Demo.limits (Demo.rs_at 0) Demo.period1
                       Demo.joint_invalid in
  let c := @Cartesian.step Demo.solver Demo.limits Demo.geometry
                           (Demo.rs_at 0) Demo.period1
                           Demo.cartesian_invalid in
  (Joint.result (fst j) = ruckig.ErrorInvalidInput
   /\ franka.JointPositions.motion_finished (snd j) = false
   /\ Joint.isRunning (fst j) = true)
  /\ (Cartesian.result (fst c) = ruckig.ErrorInvalidInput
      /\ franka.CartesianPose.motion_finished (snd c) = true
      /\ Cartesian.isRunning (fst c) = false).
Proof. run_it. Qed.

(** C4 as stated fails, twice.  A Cartesian generator that has spent none
    of its budget returns the sentinel in the very tick the solver reports
    an error.  A joint generator that went through one cycle keeps its
    counter at 5 across [start], so its second cycle ends with the sentinel
    on the first tick after [stop]. *)
Lemma C4_counterexample :
  (let g := Demo.cartesian_invalid in
   let r := @Cartesian.step Demo.solver Demo.limits Demo.geometry
                            (Demo.rs_at 0) Demo.period1 g in
   Cartesian.motion_finished_ g = false
   /\ Cartesian.current_cooldown_iteration g = 0%N
   /\ franka.CartesianPose.motion_finished (snd r) = true
   /\ Cartesian.current_cooldown_iteration (fst r) = 0%N)
  /\ (let first :=
        @Joint.run Demo.solver Demo.limits
          (Joint.Start Demo.robot (Demo.rs_at 0) :: Joint.Stop
           :: Joint.ticks_only (Demo.ticks_at 0 6))
          (Demo.joint_new false) in
      let second :=
        @Joint.run Demo.solver Demo.limits
          [Joint.Start Demo.robot (Demo.rs_at 0); Joint.Stop;
           Joint.Step (Demo.rs_at 0) Demo.period1]
          (fst first) in
      map franka.JointPositions.motion_finished (snd first)
      = [false; false; false; false; false; true]
      /\ map franka.JointPositions.motion_finished (snd second) = [true]).
Proof. run_it. Qed.

(** C4 on a generator whose counter is 0: after [stop], five plain commands
    and then the sentinel; at natural completion, started one tick into its
    cooldown, four more and then the sentinel. *)
Lemma C4_witness :
  (let g := Joint.stop Demo.joint_started in
   map franka.JointPositions.motion_finished
       (snd (@Joint.run Demo.solver Demo.limits
               (Joint.ticks_only (Demo.ticks_at 0 7)) g))
   = [false; false; false; false; false; true; true])
  /\ (let g := fst (@Joint.step Demo.solver Demo.limits (Demo.rs_at 0)
                                Demo.period1 Demo.joint_started) in
      map franka.JointPositions.motion_finished
          (snd (@Joint.run Demo.solver Demo.limits
                  (Joint.ticks_only (Demo.ticks_at 0 6)) g))
      = [false; false; false; false; true; true]).
Proof.
  cbv zeta. split.
  - exact (proj1 (proj1 (@C4_cooldown_follows_the_counter
                           Demo.solver Demo.limits Demo.geometry)
                        (Joint.stop Demo.joint_started) (Demo.ticks_at 0 7)
                        eq_refl)).
  - refine (proj1 (proj2 (@C4_cooldown_follows_the_counter
                            Demo.solver Demo.limits Demo.geometry))
                  (fst (@Joint.step Demo.solver Demo.limits (Demo.rs_at 0)
                                    Demo.period1 Demo.joint_started))
                  (Demo.ticks_at 0 6) eq_refl eq_refl eq_refl eq_refl _).
    vm_compute. repeat split; intros; reflexivity.
Defined.

(** C5 as stated fails.  In the two-waypoint sequence the first segment is
    done (the command stands at x = 1) while the robot is still measured at
    x = 0.75; the tick that loads the RELATIVE waypoint, one unit along y,
    makes (0.75, 1, 0) the target, which is not the first target composed
    with the offset, (1, 1, 0). *)
Lemma C5_counterexample :
  let g := Demo.cartesian_first_done in
  let g' := fst (@Cartesian.step Demo.solver Demo.limits Demo.geometry
                                 (Demo.rs_lagging 0.75 1) Demo.period1 g) in
  let ideal := @Cartesian.target_vector Demo.geometry
                 (Eigen.compose (CartesianMotion.target Demo.cw_first)
                                (CartesianMotion.target Demo.cw_relative)) in
  (Cartesian.result g = ruckig.Finished
   /\ Cartesian.waypoints_ g = [Demo.cw_relative]
   /\ Cartesian.current_waypoint_ g' = Some Demo.cw_relative
   /\ ruckig.target_position (Cartesian.input_para_ g')
      = [0.75; 1; 0; 0; 0; 0; 1]%float
   /\ ideal = [1; 1; 0; 0; 0; 0; 1]%float)
  /\ ruckig.target_position (Cartesian.input_para_ g') <> ideal.
Proof.
  cbv zeta. split; [run_it|].
  intros H.
  apply (f_equal (fun l => Demo.same l [1; 1; 0; 0; 0; 0; 1]%float)) in H.
  vm_compute in H. discriminate H.
Qed.

(** C5 on a robot measured at (1, 0, 0) and turned by a quarter turn about
    z, loading a RELATIVE waypoint of two units along x and another quarter
    turn: the target is at (1, 2, 0), turned by half a turn about z. *)
Lemma C5_witness :
  let g := Demo.cartesian_turn_queued in
  let g' := fst (@Cartesian.step Demo.solver Demo.limits Demo.geometry
                                 Demo.rs_turned Demo.period1 g) in
  (Cartesian.current_waypoint_ g' = Some Demo.cw_turn
   /\ ruckig.target_position (Cartesian.input_para_ g')
      = ruckig.target_position
          (Cartesian.input_para_
             (@Cartesian.setInputTarget Demo.solver Demo.limits Demo.geometry
                                        Demo.rs_turned Demo.cw_turn g)))
  /\ ruckig.target_position (Cartesian.input_para_ g')
     = [1; 2; 0; 0; 0; 1; 0]%float.
Proof.
  cbv zeta. split.
  - exact (proj2 (@C5_relative_target_resolved_when_loaded
                    Demo.solver Demo.limits Demo.geometry)
                 Demo.cartesian_turn_queued Demo.rs_turned Demo.period1
                 Demo.cw_turn eq_refl eq_refl eq_refl eq_refl).
  - vm_compute. reflexivity.
Defined.

(** The failing input of C6: measured joints at 0, commanded joints at
    0.125.  The segment [start] sets up for the joint generator is not a
    zero-displacement one; the Cartesian generator's is. *)
Lemma C6_joint_start_displacement :
  let rs := Demo.rs_lagging 0 0.125 in
  let j := Joint.input_para_
             (@Joint.start Demo.solver Demo.limits Demo.robot rs
                           (Demo.joint_new false)) in
  let c := Cartesian.input_para_
             (@Cartesian.start Demo.solver Demo.limits Demo.geometry
                               Demo.robot rs (Demo.cartesian_new false)) in
  (ruckig.current_position j = repeat 0%float 7
   /\ ruckig.target_position j = repeat 0.125%float 7
   /\ ruckig.target_position c = ruckig.current_position c)
  /\ ruckig.target_position j <> ruckig.current_position j.
Proof.
  cbv zeta. split; [run_it|].
  intros H. apply (f_equal (fun l => Demo.same l (repeat 0%float 7))) in H.
  vm_compute in H. discriminate H.
Qed.




(** C9 as stated fails.  A started generator that has just been stopped has
    its whole cooldown ahead: the next five ticks return plain commands and
    the sentinel comes with the sixth.  [isRunning] is false already. *)
Lemma C9_counterexample :
  let g := Joint.stop Demo.joint_started in
  Joint.isRunning g = false
  /\ Joint.cooldown_left g = 5%nat
  /\ map franka.JointPositions.motion_finished
         (snd (@Joint.run Demo.solver Demo.limits
                 (Joint.ticks_only (Demo.ticks_at 0 6)) g))
     = [false; false; false; false; false; true].
Proof. run_it. Qed.

(** C9 on the first tick of a started generator. *)
Lemma C9_witness :
  let r := @Joint.step Demo.solver Demo.limits (Demo.rs_at 0) Demo.period1
                       Demo.joint_started in
  Joint.isRunning (fst r)
  = negb (franka.JointPositions.motion_finished (snd r)).
Proof.
  cbv zeta.
  destruct (proj1 (@C9_isRunning_negates_finished_flag
                     Demo.solver Demo.limits Demo.geometry)
                  Demo.joint_started) as (_ & _ & Hstep).
  apply (proj1 (Hstep (Demo.rs_at 0) Demo.period1)). reflexivity.
Defined.

(** C10 on a second cycle: the generator that completed one cycle is
    started again; the first tick finds the hold segment complete and
    returns the sentinel, with no cooldown tick. *)
Lemma C10_witness :
  let g := @Joint.start Demo.solver Demo.limits Demo.robot (Demo.rs_at 0)
                        Demo.joint_completed in
  Joint.current_cooldown_iteration g = 5%N
  /\ Joint.isRunning g = true
  /\ franka.JointPositions.motion_finished
       (snd (@Joint.step Demo.solver Demo.limits (Demo.rs_at 0) Demo.period1
                         g)) = true.
Proof.
  cbv zeta. split; [reflexivity|]. split; [reflexivity|].
  apply (proj1 (proj2 (proj2 (@C10_start_keeps_cooldown_counter
                                Demo.solver Demo.limits Demo.geometry)))).
  - vm_compute. discriminate.
  - right. reflexivity.
Defined.

(** * Further facts about the joint generator *)
Section JointMore.
Import JointMotionGenerator.
Context {S : ruckig.Solver} {L : Panda.Limits}.

Ltac joint_branches g :=
  unfold solve_and_classify;
  destruct (ruckig.update (trajectory_generator_ g) (input_para_ g)
                          (output_para_ g)) as [[?res ?otg] ?out] eqn:?;
  simpl;
  destruct res; simpl;
  try (destruct (waypoints_ g) eqn:?; simpl;
       destruct (keep_running_ g) eqn:?; simpl;
       destruct (current_cooldown_iteration g <? cooldown_iterations)%N eqn:?;
       simpl).

Ltac counter_facts :=
  repeat match goal with
         | H : (_ <? _)%N = true |- _ => apply N.ltb_lt in H
         | H : (_ <? _)%N = false |- _ => apply N.ltb_ge in H
         end;
  unfold cooldown_iterations in *.

(** ** Clock and session object *)

Lemma joint_reload_session rs g :
  panda_ (reload_if_requested rs g) = panda_ g
  /\ time_ (reload_if_requested rs g) = time_ g.
Proof.
  unfold reload_if_requested, loadNextWaypoint.
  destruct (reload_ g); [destruct (waypoints_ g)|]; simpl; auto.
Qed.

Lemma joint_solve_session g :
  panda_ (fst (solve_and_classify g)) = panda_ g
  /\ time_ (fst (solve_and_classify g)) = time_ g.
Proof. joint_branches g; auto. Qed.

Lemma joint_step_loop_session n : forall rs g,
  panda_ (fst (step_loop n rs g)) = panda_ g
  /\ time_ (fst (step_loop n rs g)) = time_ g.
Proof.
  induction n as [|n IH]; intros rs g; simpl; [auto|].
  unfold sub_step.
  destruct (joint_reload_session rs g) as [Hp Ht].
  destruct (joint_solve_session (reload_if_requested rs g)) as [Hp' Ht'].
  destruct (solve_and_classify (reload_if_requested rs g)) as [g1 [c|]];
    simpl in *.
  - split; congruence.
  - destruct (IH rs g1). split; congruence.
Qed.

Lemma joint_step_session rs period g :
  time_ (fst (step rs period g))
  = (time_ g + franka.Duration.toSec period)%float
  /\ panda_ (fst (step rs period g)) = Panda._setState rs (panda_ g).
Proof.
  unfold step.
  destruct (motion_finished_ (tick rs period g)).
  - destruct (_ <? _)%N; simpl; auto.
  - destruct (joint_step_loop_session (Z.to_nat (steps_of period)) rs
                (tick rs period g)) as [-> ->].
    simpl. auto.
Qed.

(** ** A finished generator *)

Lemma joint_finished_step rs period g :
  motion_finished_ g = true ->
  let g' := fst (step rs period g) in
  motion_finished_ g' = true
  /\ waypoints_ g' = waypoints_ g
  /\ current_waypoint_ g' = current_waypoint_ g
  /\ trajectory_generator_ g' = trajectory_generator_ g
  /\ input_para_ g' = input_para_ g
  /\ output_para_ g' = output_para_ g
  /\ result g' = result g
  /\ reload_ g' = reload_ g.
Proof.
  intros Hf. cbv zeta. rewrite (joint_step_finishing rs period g Hf).
  destruct (_ <? _)%N; simpl; auto 10.
Qed.

Lemma joint_finished_run acts : forall g,
  motion_finished_ g = true ->
  Forall (fun a => is_start a = false) acts ->
  let g' := fst (run acts g) in
  motion_finished_ g' = true
  /\ current_waypoint_ g' = current_waypoint_ g
  /\ trajectory_generator_ g' = trajectory_generator_ g
  /\ input_para_ g' = input_para_ g
  /\ output_para_ g' = output_para_ g
  /\ result g' = result g.
Proof.
  induction acts as [|a acts IH]; intros g Hf Hs; cbv zeta.
  - simpl. auto 10.
  - inversion Hs as [|? ? Ha Hs']; subst.
    destruct a as [w|ws| |robot rs| |rs period]; simpl in *;
      try discriminate.
    + apply (IH (addWaypoint w g)); auto.
    + rewrite joint_addWaypoints_eq.
      apply (IH (set_reload_ true (set_waypoints_ (waypoints_ g ++ ws) g)));
        auto.
    + apply (IH (clearWaypoints g)); auto.
    + apply (IH (stop g)); auto.
    + destruct (joint_finished_step rs period g Hf)
        as (Hf1 & _ & Hc & Ho & Hi & Hu & Hr & _).
      destruct (step rs period g) as [g1 c]; simpl in *.
      specialize (IH g1 Hf1 Hs'). cbv zeta in IH.
      destruct (run acts g1) as [g2 cs]; simpl in *.
      destruct IH as (? & ? & ? & ? & ? & ?).
      repeat split; congruence.
Qed.

(** ** What a running generator returns *)

Lemma joint_solve_wraps g :
  match snd (solve_and_classify g) with
  | Some c => franka.JointPositions.q c
              = ruckig.new_position (output_para_ (fst (solve_and_classify g)))
  | None => True
  end.
Proof. joint_branches g; auto. Qed.

Lemma joint_step_loop_wraps n : forall rs g,
  franka.JointPositions.q (snd (step_loop n rs g))
  = ruckig.new_position (output_para_ (fst (step_loop n rs g))).
Proof.
  induction n as [|n IH]; intros rs g; simpl; [reflexivity|].
  unfold sub_step.
  pose proof (joint_solve_wraps (reload_if_requested rs g)) as Hw.
  destruct (solve_and_classify (reload_if_requested rs g)) as [g1 [c|]];
    simpl in *; auto.
Qed.

(** ** Pass-through *)

Lemma joint_solve_pass g :
  match snd (solve_and_classify g) with
  | Some c => franka.JointPositions.motion_finished c = false ->
              at_completion (fst (solve_and_classify g)) = true
  | None => passed_through (fst (solve_and_classify g))
  end.
Proof.
  unfold passed_through, at_completion.
  joint_branches g; auto; try discriminate;
    intros _; rewrite ?Heql, ?Heqb; reflexivity.
Qed.

Lemma joint_step_loop_pass n : forall rs g,
  (n = O -> passed_through g) ->
  franka.JointPositions.motion_finished (snd (step_loop n rs g)) = false ->
  at_completion (fst (step_loop n rs g)) = false ->
  passed_through (fst (step_loop n rs g)).
Proof.
  induction n as [|n IH]; intros rs g H0; simpl; [auto|].
  unfold sub_step.
  pose proof (joint_solve_pass (reload_if_requested rs g)) as Hp.
  destruct (solve_and_classify (reload_if_requested rs g)) as [g1 [c|]];
    simpl in *.
  - intros Hc Ha. rewrite (Hp Hc) in Ha. discriminate.
  - apply IH. auto.
Qed.

(** ** The queue across a tick *)

Lemma joint_sub_step_pops rs g :
  exists k, (k <= 1)%nat
            /\ waypoints_ (fst (sub_step rs g)) = skipn k (waypoints_ g).
Proof.
  unfold sub_step.
  destruct (joint_solve_frame (reload_if_requested rs g))
    as (_ & Hw & _). rewrite Hw.
  unfold reload_if_requested, loadNextWaypoint.
  destruct (reload_ g); [destruct (waypoints_ g) eqn:E|]; simpl.
  - exists O. auto.
  - exists 1%nat. auto.
  - exists O. auto.
Qed.

Lemma joint_step_loop_pops n : forall rs g,
  exists k, (k <= n)%nat
            /\ waypoints_ (fst (step_loop n rs g)) = skipn k (waypoints_ g).
Proof.
  induction n as [|n IH]; intros rs g; simpl.
  - exists O. auto.
  - destruct (joint_sub_step_pops rs g) as (k1 & Hk1 & Hw1).
    destruct (sub_step rs g) as [g1 [c|]]; simpl in *.
    + exists k1. split; [lia | assumption].
    + destruct (IH rs g1) as (k & Hk & Hw).
      exists (k + k1)%nat. split; [lia|].
      now rewrite Hw, Hw1, skipn_skipn.
Qed.

(** ** The cooldown counter *)

Lemma joint_solve_counter_bounds g :
  (current_cooldown_iteration g <= cooldown_iterations)%N ->
  (current_cooldown_iteration g
   <= current_cooldown_iteration (fst (solve_and_classify g))
   <= cooldown_iterations)%N.
Proof.
  intros Hc. joint_branches g; counter_facts; try lia.
  all: change (2 ^ 64)%N with 18446744073709551616%N;
       rewrite N.mod_small by lia; lia.
Qed.

Lemma joint_step_loop_counter_bounds n : forall rs g,
  (current_cooldown_iteration g <= cooldown_iterations)%N ->
  (current_cooldown_iteration g
   <= current_cooldown_iteration (fst (step_loop n rs g))
   <= cooldown_iterations)%N.
Proof.
  induction n as [|n IH]; intros rs g Hc; simpl; [lia|].
  unfold sub_step.
  destruct (joint_reload_frame rs g) as (_ & _ & Hc' & _).
  pose proof (joint_solve_counter_bounds (reload_if_requested rs g)) as Hs.
  rewrite Hc' in Hs. specialize (Hs Hc).
  destruct (solve_and_classify (reload_if_requested rs g)) as [g1 [c|]];
    simpl in *; [lia|].
  specialize (IH rs g1). lia.
Qed.

Lemma joint_step_counter_bounds rs period g :
  (current_cooldown_iteration g <= cooldown_iterations)%N ->
  (current_cooldown_iteration g
   <= current_cooldown_iteration (fst (step rs period g))
   <= cooldown_iterations)%N.
Proof.
  intros Hc. unfold step.
  destruct (motion_finished_ (tick rs period g)).
  - change (current_cooldown_iteration (tick rs period g))
      with (current_cooldown_iteration g).
    destruct (_ <? _)%N eqn:Hlt; simpl; counter_facts; [|lia].
    change (2 ^ 64)%N with 18446744073709551616%N.
    rewrite N.mod_small by lia. lia.
  - apply (joint_step_loop_counter_bounds _ rs (tick rs period g) Hc).
Qed.

Lemma joint_run_counter_bounds acts : forall g,
  (current_cooldown_iteration g <= cooldown_iterations)%N ->
  (current_cooldown_iteration g
   <= current_cooldown_iteration (fst (run acts g))
   <= cooldown_iterations)%N
  /\ keep_running_ (fst (run acts g)) = keep_running_ g.
Proof.
  induction acts as [|a acts IH]; intros g Hc; [simpl; split; [lia|auto]|].
  destruct a as [w|ws| |robot rs| |rs period]; simpl.
  - apply (IH (addWaypoint w g) Hc).
  - rewrite joint_addWaypoints_eq.
    apply (IH (set_reload_ true (set_waypoints_ (waypoints_ g ++ ws) g)) Hc).
  - apply (IH (clearWaypoints g) Hc).
  - apply (IH (start robot rs g) Hc).
  - apply (IH (stop g) Hc).
  - pose proof (joint_step_counter_bounds rs period g Hc) as Hs.
    pose proof (joint_step_keep rs period g) as Hk.
    destruct (step rs period g) as [g1 c]; simpl in *.
    destruct (IH g1) as [Hb Hk']; [lia|].
    destruct (run acts g1) as [g2 cs]; simpl in *.
    split; [lia | congruence].
Qed.

(** ** Targets at rest *)

Lemma joint_reload_at_rest rs g :
  at_rest g -> at_rest (reload_if_requested rs g).
Proof.
  unfold at_rest, reload_if_requested, loadNextWaypoint.
  destruct (reload_ g); [destruct (waypoints_ g)|]; simpl; auto.
Qed.

Lemma joint_solve_at_rest g :
  at_rest g -> at_rest (fst (solve_and_classify g)).
Proof. unfold at_rest. joint_branches g; auto. Qed.

Lemma joint_step_loop_at_rest n : forall rs g,
  at_rest g -> at_rest (fst (step_loop n rs g)).
Proof.
  induction n as [|n IH]; intros rs g Hr; simpl; [assumption|].
  unfold sub_step.
  pose proof (joint_solve_at_rest _ (joint_reload_at_rest rs g Hr)) as Hs.
  destruct (solve_and_classify (reload_if_requested rs g)) as [g1 [c|]];
    simpl in *; auto.
Qed.

Lemma joint_step_at_rest rs period g :
  at_rest g -> at_rest (fst (step rs period g)).
Proof.
  intros Hr. unfold step.
  destruct (motion_finished_ (tick rs period g)).
  - destruct (_ <? _)%N; exact Hr.
  - apply joint_step_loop_at_rest. exact Hr.
Qed.

Lemma joint_run_at_rest acts : forall g,
  at_rest g -> at_rest (fst (run acts g)).
Proof.
  induction acts as [|a acts IH]; intros g Hr; [assumption|].
  destruct a as [w|ws| |robot rs| |rs period]; simpl.
  - apply IH. exact Hr.
  - apply IH. rewrite joint_addWaypoints_eq. exact Hr.
  - apply IH. exact Hr.
  - apply IH. split; reflexivity.
  - apply IH. exact Hr.
  - pose proof (joint_step_at_rest rs period g Hr) as Hs.
    destruct (step rs period g) as [g1 c]; simpl in *.
    specialize (IH g1 Hs). destruct (run acts g1) as [g2 cs]. exact IH.
Qed.

(** ** Reload requests across a tick *)

Lemma joint_solve_reload g :
  reload_ g = false ->
  reload_ (fst (solve_and_classify g)) = true ->
  snd (solve_and_classify g) = None
  /\ result (fst (solve_and_classify g)) = ruckig.Finished
  /\ waypoints_ (fst (solve_and_classify g)) <> [].
Proof.
  intros Hr. joint_branches g; intros H; try congruence.
  all: repeat split; auto; rewrite ?Heql; discriminate.
Qed.

Lemma joint_step_loop_reload n : forall rs g,
  (n = O -> reload_ g = true ->
   result g = ruckig.Finished /\ waypoints_ g <> []) ->
  reload_ (fst (step_loop n rs g)) = true ->
  result (fst (step_loop n rs g)) = ruckig.Finished
  /\ waypoints_ (fst (step_loop n rs g)) <> []
  /\ franka.JointPositions.motion_finished (snd (step_loop n rs g)) = false.
Proof.
  induction n as [|n IH]; intros rs g H0; simpl.
  - intros Hr. destruct (H0 eq_refl Hr). auto.
  - unfold sub_step.
    destruct (joint_reload_frame rs g) as (_ & _ & _ & _ & _ & Hc).
    pose proof (joint_solve_reload (reload_if_requested rs g) Hc) as Hs.
    destruct (solve_and_classify (reload_if_requested rs g)) as [g1 [c|]];
      simpl in *.
    + intros Hr. destruct (Hs Hr) as [Hn _]. discriminate.
    + apply IH. intros _ Hr. destruct (Hs Hr) as (_ & ? & ?). auto.
Qed.

(** ** Segments that are over at once *)


End JointMore.

(** * Further facts about the Cartesian generator *)
Section CartesianMore.
Import CartesianMotionGenerator.
Context {S : ruckig.Solver} {L : Panda.Limits} {Geo : Eigen.Geometry}.

Ltac cartesian_branches g :=
  unfold solve_and_classify;
  destruct (ruckig.update (trajectory_generator_ g) (input_para_ g)
                          (output_para_ g)) as [[?res ?otg] ?out] eqn:?;
  simpl;
  destruct res; simpl;
  try (destruct (waypoints_ g) eqn:?; simpl;
       destruct (keep_running_ g) eqn:?; simpl;
       destruct (current_cooldown_iteration g <? cooldown_iterations)%N eqn:?;
       simpl).

Ltac counter_facts :=
  repeat match goal with
         | H : (_ <? _)%N = true |- _ => apply N.ltb_lt in H
         | H : (_ <? _)%N = false |- _ => apply N.ltb_ge in H
         end;
  unfold cooldown_iterations in *.

(** ** Clock and session object *)

Lemma cartesian_reload_session rs g :
  panda_ (reload_if_requested rs g) = panda_ g
  /\ time_ (reload_if_requested rs g) = time_ g.
Proof.
  unfold reload_if_requested, loadNextWaypoint.
  destruct (reload_ g); [destruct (waypoints_ g)|]; simpl; auto.
Qed.

Lemma cartesian_solve_session rs g :
  panda_ (fst (solve_and_classify rs g)) = panda_ g
  /\ time_ (fst (solve_and_classify rs g)) = time_ g.
Proof. cartesian_branches g; auto. Qed.

Lemma cartesian_step_loop_session n : forall rs g,
  panda_ (fst (step_loop n rs g)) = panda_ g
  /\ time_ (fst (step_loop n rs g)) = time_ g.
Proof.
  induction n as [|n IH]; intros rs g; simpl; [auto|].
  unfold sub_step.
  destruct (cartesian_reload_session rs g) as [Hp Ht].
  destruct (cartesian_solve_session rs (reload_if_requested rs g)) as [Hp' Ht'].
  destruct (solve_and_classify rs (reload_if_requested rs g)) as [g1 [c|]];
    simpl in *.
  - split; congruence.
  - destruct (IH rs g1). split; congruence.
Qed.

Lemma cartesian_step_session rs period g :
  time_ (fst (step rs period g))
  = (time_ g + franka.Duration.toSec period)%float
  /\ panda_ (fst (step rs period g)) = Panda._setState rs (panda_ g).
Proof.
  unfold step.
  destruct (motion_finished_ (tick rs period g)).
  - destruct (_ <? _)%N; simpl; auto.
  - destruct (cartesian_step_loop_session (Z.to_nat (steps_of period)) rs
                (tick rs period g)) as [-> ->].
    simpl. auto.
Qed.

(** ** A finished generator *)

Lemma cartesian_finished_step rs period g :
  motion_finished_ g = true ->
  let g' := fst (step rs period g) in
  motion_finished_ g' = true
  /\ waypoints_ g' = waypoints_ g
  /\ current_waypoint_ g' = current_waypoint_ g
  /\ trajectory_generator_ g' = trajectory_generator_ g
  /\ input_para_ g' = input_para_ g
  /\ output_para_ g' = output_para_ g
  /\ result g' = result g
  /\ reload_ g' = reload_ g.
Proof.
  intros Hf. cbv zeta. rewrite (cartesian_step_finishing rs period g Hf).
  destruct (_ <? _)%N; simpl; auto 10.
Qed.

Lemma cartesian_finished_run acts : forall g,
  motion_finished_ g = true ->
  Forall (fun a => is_start a = false) acts ->
  let g' := fst (run acts g) in
  motion_finished_ g' = true
  /\ current_waypoint_ g' = current_waypoint_ g
  /\ trajectory_generator_ g' = trajectory_generator_ g
  /\ input_para_ g' = input_para_ g
  /\ output_para_ g' = output_para_ g
  /\ result g' = result g.
Proof.
  induction acts as [|a acts IH]; intros g Hf Hs; cbv zeta.
  - simpl. auto 10.
  - inversion Hs as [|? ? Ha Hs']; subst.
    destruct a as [w|ws| |robot rs| |rs period]; simpl in *;
      try discriminate.
    + apply (IH (addWaypoint w g)); auto.
    + rewrite cartesian_addWaypoints_eq.
      apply (IH (set_reload_ true (set_waypoints_ (waypoints_ g ++ ws) g)));
        auto.
    + apply (IH (clearWaypoints g)); auto.
    + apply (IH (stop g)); auto.
    + destruct (cartesian_finished_step rs period g Hf)
        as (Hf1 & _ & Hc & Ho & Hi & Hu & Hr & _).
      destruct (step rs period g) as [g1 c]; simpl in *.
      specialize (IH g1 Hf1 Hs'). cbv zeta in IH.
      destruct (run acts g1) as [g2 cs]; simpl in *.
      destruct IH as (? & ? & ? & ? & ? & ?).
      repeat split; congruence.
Qed.

(** ** What a running generator returns *)

Lemma cartesian_solve_wraps rs g :
  match snd (solve_and_classify rs g) with
  | Some c =>
      c = getPoseFromOutput rs (output_para_ (fst (solve_and_classify rs g)))
      \/ c = franka.CartesianPose.MotionFinished
               (getPoseFromOutput rs
                  (output_para_ (fst (solve_and_classify rs g))))
      \/ (ruckig.is_error (result (fst (solve_and_classify rs g))) = true
          /\ c = franka.CartesianPose.MotionFinished
                   (franka.CartesianPose.make
                      (franka.RobotState.O_T_EE_c rs)))
  | None => True
  end.
Proof. cartesian_branches g; auto. Qed.

Lemma cartesian_step_loop_wraps n : forall rs g,
  let r := step_loop n rs g in
  snd r = getPoseFromOutput rs (output_para_ (fst r))
  \/ snd r = franka.CartesianPose.MotionFinished
               (getPoseFromOutput rs (output_para_ (fst r)))
  \/ (ruckig.is_error (result (fst r)) = true
      /\ snd r = franka.CartesianPose.MotionFinished
                   (franka.CartesianPose.make
                      (franka.RobotState.O_T_EE_c rs))).
Proof.
  induction n as [|n IH]; intros rs g; cbv zeta; simpl; [auto|].
  unfold sub_step.
  pose proof (cartesian_solve_wraps rs (reload_if_requested rs g)) as Hw.
  destruct (solve_and_classify rs (reload_if_requested rs g)) as [g1 [c|]];
    simpl in *; auto.
Qed.

(** ** Pass-through *)

Lemma cartesian_solve_pass rs g :
  match snd (solve_and_classify rs g) with
  | Some c => franka.CartesianPose.motion_finished c = false ->
              at_completion (fst (solve_and_classify rs g)) = true
  | None => passed_through (fst (solve_and_classify rs g))
  end.
Proof.
  unfold passed_through, at_completion.
  cartesian_branches g; auto; try discriminate;
    intros _; rewrite ?Heql, ?Heqb; reflexivity.
Qed.

Lemma cartesian_step_loop_pass n : forall rs g,
  (n = O -> passed_through g) ->
  franka.CartesianPose.motion_finished (snd (step_loop n rs g)) = false ->
  at_completion (fst (step_loop n rs g)) = false ->
  passed_through (fst (step_loop n rs g)).
Proof.
  induction n as [|n IH]; intros rs g H0; simpl; [auto|].
  unfold sub_step.
  pose proof (cartesian_solve_pass rs (reload_if_requested rs g)) as Hp.
  destruct (solve_and_classify rs (reload_if_requested rs g)) as [g1 [c|]];
    simpl in *.
  - intros Hc Ha. rewrite (Hp Hc) in Ha. discriminate.
  - apply IH. auto.
Qed.

(** ** The queue across a tick *)

Lemma cartesian_sub_step_pops rs g :
  exists k, (k <= 1)%nat
            /\ waypoints_ (fst (sub_step rs g)) = skipn k (waypoints_ g).
Proof.
  unfold sub_step.
  destruct (cartesian_solve_frame rs (reload_if_requested rs g))
    as (_ & Hw & _). rewrite Hw.
  unfold reload_if_requested, loadNextWaypoint.
  destruct (reload_ g); [destruct (waypoints_ g) eqn:E|]; simpl.
  - exists O. auto.
  - exists 1%nat. auto.
  - exists O. auto.
Qed.

Lemma cartesian_step_loop_pops n : forall rs g,
  exists k, (k <= n)%nat
            /\ waypoints_ (fst (step_loop n rs g)) = skipn k (waypoints_ g).
Proof.
  induction n as [|n IH]; intros rs g; simpl.
  - exists O. auto.
  - destruct (cartesian_sub_step_pops rs g) as (k1 & Hk1 & Hw1).
    destruct (sub_step rs g) as [g1 [c|]]; simpl in *.
    + exists k1. split; [lia | assumption].
    + destruct (IH rs g1) as (k & Hk & Hw).
      exists (k + k1)%nat. split; [lia|].
      now rewrite Hw, Hw1, skipn_skipn.
Qed.

(** ** The cooldown counter *)

Lemma cartesian_solve_counter_bounds rs g :
  (current_cooldown_iteration g <= cooldown_iterations)%N ->
  (current_cooldown_iteration g
   <= current_cooldown_iteration (fst (solve_and_classify rs g))
   <= cooldown_iterations)%N.
Proof.
  intros Hc. cartesian_branches g; counter_facts; try lia.
  all: change (2 ^ 64)%N with 18446744073709551616%N;
       rewrite N.mod_small by lia; lia.
Qed.

Lemma cartesian_step_loop_counter_bounds n : forall rs g,
  (current_cooldown_iteration g <= cooldown_iterations)%N ->
  (current_cooldown_iteration g
   <= current_cooldown_iteration (fst (step_loop n rs g))
   <= cooldown_iterations)%N.
Proof.
  induction n as [|n IH]; intros rs g Hc; simpl; [lia|].
  unfold sub_step.
  destruct (cartesian_reload_frame rs g) as (_ & _ & Hc' & _).
  pose proof (cartesian_solve_counter_bounds rs (reload_if_requested rs g)) as Hs.
  rewrite Hc' in Hs. specialize (Hs Hc).
  destruct (solve_and_classify rs (reload_if_requested rs g)) as [g1 [c|]];
    simpl in *; [lia|].
  specialize (IH rs g1). lia.
Qed.

Lemma cartesian_step_counter_bounds rs period g :
  (current_cooldown_iteration g <= cooldown_iterations)%N ->
  (current_cooldown_iteration g
   <= current_cooldown_iteration (fst (step rs period g))
   <= cooldown_iterations)%N.
Proof.
  intros Hc. unfold step.
  destruct (motion_finished_ (tick rs period g)).
  - change (current_cooldown_iteration (tick rs period g))
      with (current_cooldown_iteration g).
    destruct (_ <? _)%N eqn:Hlt; simpl; counter_facts; [|lia].
    change (2 ^ 64)%N with 18446744073709551616%N.
    rewrite N.mod_small by lia. lia.
  - apply (cartesian_step_loop_counter_bounds _ rs (tick rs period g) Hc).
Qed.

Lemma cartesian_run_counter_bounds acts : forall g,
  (current_cooldown_iteration g <= cooldown_iterations)%N ->
  (current_cooldown_iteration g
   <= current_cooldown_iteration (fst (run acts g))
   <= cooldown_iterations)%N
  /\ keep_running_ (fst (run acts g)) = keep_running_ g.
Proof.
  induction acts as [|a acts IH]; intros g Hc; [simpl; split; [lia|auto]|].
  destruct a as [w|ws| |robot rs| |rs period]; simpl.
  - apply (IH (addWaypoint w g) Hc).
  - rewrite cartesian_addWaypoints_eq.
    apply (IH (set_reload_ true (set_waypoints_ (waypoints_ g ++ ws) g)) Hc).
  - apply (IH (clearWaypoints g) Hc).
  - apply (IH (start robot rs g) Hc).
  - apply (IH (stop g) Hc).
  - pose proof (cartesian_step_counter_bounds rs period g Hc) as Hs.
    pose proof (cartesian_step_keep rs period g) as Hk.
    destruct (step rs period g) as [g1 c]; simpl in *.
    destruct (IH g1) as [Hb Hk']; [lia|].
    destruct (run acts g1) as [g2 cs]; simpl in *.
    split; [lia | congruence].
Qed.

(** ** Targets at rest *)

Lemma cartesian_reload_at_rest rs g :
  at_rest g -> at_rest (reload_if_requested rs g).
Proof.
  unfold at_rest, reload_if_requested, loadNextWaypoint.
  destruct (reload_ g); [destruct (waypoints_ g)|]; simpl; auto.
Qed.

Lemma cartesian_solve_at_rest rs g :
  at_rest g -> at_rest (fst (solve_and_classify rs g)).
Proof. unfold at_rest. cartesian_branches g; auto. Qed.

Lemma cartesian_step_loop_at_rest n : forall rs g,
  at_rest g -> at_rest (fst (step_loop n rs g)).
Proof.
  induction n as [|n IH]; intros rs g Hr; simpl; [assumption|].
  unfold sub_step.
  pose proof (cartesian_solve_at_rest rs _ (cartesian_reload_at_rest rs g Hr)) as Hs.
  destruct (solve_and_classify rs (reload_if_requested rs g)) as [g1 [c|]];
    simpl in *; auto.
Qed.

Lemma cartesian_step_at_rest rs period g :
  at_rest g -> at_rest (fst (step rs period g)).
Proof.
  intros Hr. unfold step.
  destruct (motion_finished_ (tick rs period g)).
  - destruct (_ <? _)%N; exact Hr.
  - apply cartesian_step_loop_at_rest. exact Hr.
Qed.

Lemma cartesian_run_at_rest acts : forall g,
  at_rest g -> at_rest (fst (run acts g)).
Proof.
  induction acts as [|a acts IH]; intros g Hr; [assumption|].
  destruct a as [w|ws| |robot rs| |rs period]; simpl.
  - apply IH. exact Hr.
  - apply IH. rewrite cartesian_addWaypoints_eq. exact Hr.
  - apply IH. exact Hr.
  - apply IH. split; reflexivity.
  - apply IH. exact Hr.
  - pose proof (cartesian_step_at_rest rs period g Hr) as Hs.
    destruct (step rs period g) as [g1 c]; simpl in *.
    specialize (IH g1 Hs). destruct (run acts g1) as [g2 cs]. exact IH.
Qed.

(** ** Reload requests across a tick *)

Lemma cartesian_solve_reload rs g :
  reload_ g = false ->
  reload_ (fst (solve_and_classify rs g)) = true ->
  snd (solve_and_classify rs g) = None
  /\ result (fst (solve_and_classify rs g)) = ruckig.Finished
  /\ waypoints_ (fst (solve_and_classify rs g)) <> [].
Proof.
  intros Hr. cartesian_branches g; intros H; try congruence.
  all: repeat split; auto; rewrite ?Heql; discriminate.
Qed.

Lemma cartesian_step_loop_reload n : forall rs g,
  (n = O -> reload_ g = true ->
   result g = ruckig.Finished /\ waypoints_ g <> []) ->
  reload_ (fst (step_loop n rs g)) = true ->
  result (fst (step_loop n rs g)) = ruckig.Finished
  /\ waypoints_ (fst (step_loop n rs g)) <> []
  /\ franka.CartesianPose.motion_finished (snd (step_loop n rs g)) = false.
Proof.
  induction n as [|n IH]; intros rs g H0; simpl.
  - intros Hr. destruct (H0 eq_refl Hr). auto.
  - unfold sub_step.
    destruct (cartesian_reload_frame rs g) as (_ & _ & _ & _ & _ & Hc).
    pose proof (cartesian_solve_reload rs (reload_if_requested rs g) Hc) as Hs.
    destruct (solve_and_classify rs (reload_if_requested rs g)) as [g1 [c|]];
      simpl in *.
    + intros Hr. destruct (Hs Hr) as [Hn _]. discriminate.
    + apply IH. intros _ Hr. destruct (Hs Hr) as (_ & ? & ?). auto.
Qed.

(** ** Segments that are over at once *)


End CartesianMore.

(** * Further properties of the generators *)

Section Further.
Context {S : ruckig.Solver} {L : Panda.Limits} {Geo : Eigen.Geometry}.

(** X1: the number of sub-steps of a tick.  Both generators compute it the
    same way; it is at least 1 and fits an [int]; it is the period in
    milliseconds for periods from 1 ms up to 2^31 - 1 ms, and 1 for a period
    of 0 ms and for the periods from 2^31 ms up to 2^32 - 1 ms, which the
    narrowing to [int] turns negative. *)
Theorem X1_sub_step_count (period : franka.Duration.t) :
  let ms := franka.Duration.duration_ period in
  Joint.steps_of period = Cartesian.steps_of period
  /\ 1 <= Joint.steps_of period < 2 ^ 31
  /\ (0 <= ms < 2 ^ 31 -> Joint.steps_of period = Z.max ms 1)
  /\ (2 ^ 31 <= ms < 2 ^ 32 -> Joint.steps_of period = 1).
Proof.
  cbv zeta. split; [reflexivity|].
  unfold Joint.steps_of, Joint.to_int, franka.Duration.toMSec.
  change (2 ^ 64) with 18446744073709551616.
  change (2 ^ 32) with 4294967296. change (2 ^ 31) with 2147483648.
  set (ms := franka.Duration.duration_ period).
  pose proof (Z.mod_pos_bound (ms mod 18446744073709551616 + 2147483648)
                              4294967296 eq_refl) as Hb.
  split; [lia|]. split; intros Hms.
  - rewrite (Z.mod_small ms) by lia. rewrite Z.mod_small by lia. lia.
  - rewrite (Z.mod_small ms) by lia.
    replace (ms + 2147483648) with (ms - 2147483648 + 1 * 4294967296) by lia.
    rewrite Z.mod_add by lia. rewrite Z.mod_small by lia. lia.
Qed.

(** X2: enqueuing composes.  Adding [xs] and then [ys] is adding
    [xs ++ ys]; [addWaypoint] is [addWaypoints] of one waypoint; clearing
    after adding is clearing.  [addWaypoints] of an empty vector changes
    nothing but the reload flag, which it sets: on a running generator with
    nothing queued, the next tick then replaces the target by the hold
    target of that tick. *)
Theorem X2_enqueuing_composes :
  (forall xs ys w (g : Joint.t),
      Joint.addWaypoints ys (Joint.addWaypoints xs g)
      = Joint.addWaypoints (xs ++ ys) g
      /\ Joint.addWaypoint w g = Joint.addWaypoints [w] g
      /\ Joint.clearWaypoints (Joint.addWaypoints xs g)
         = Joint.clearWaypoints g
      /\ Joint.addWaypoints [] g = Joint.set_reload_ true g
      /\ forall rs period,
          Joint.motion_finished_ g = false -> Joint.waypoints_ g = [] ->
          ruckig.target_position
            (Joint.input_para_
               (fst (Joint.step rs period (Joint.addWaypoints [] g))))
          = franka.RobotState.q_d rs)
  /\ (forall xs ys w (g : Cartesian.t),
      Cartesian.addWaypoints ys (Cartesian.addWaypoints xs g)
      = Cartesian.addWaypoints (xs ++ ys) g
      /\ Cartesian.addWaypoint w g = Cartesian.addWaypoints [w] g
      /\ Cartesian.clearWaypoints (Cartesian.addWaypoints xs g)
         = Cartesian.clearWaypoints g
      /\ Cartesian.addWaypoints [] g = Cartesian.set_reload_ true g
      /\ forall rs period,
          Cartesian.motion_finished_ g = false ->
          Cartesian.waypoints_ g = [] ->
          ruckig.target_position
            (Cartesian.input_para_
               (fst (Cartesian.step rs period (Cartesian.addWaypoints [] g))))
          = Cartesian.target_vector
              (Eigen.Map (franka.RobotState.O_T_EE_c rs))).
Proof.
  split; intros xs ys w g.
  - rewrite !joint_addWaypoints_eq.
    split; [simpl; now rewrite app_assoc|].
    split; [reflexivity|].
    split; [unfold Joint.clearWaypoints; simpl;
            now rewrite !joint_pop_all_nil|].
    split; [simpl; now rewrite app_nil_r; destruct g|].
    intros rs period Hf Hw.
    destruct (joint_step_loads rs period
                (Joint.set_reload_ true
                   (Joint.set_waypoints_ (Joint.waypoints_ g ++ []) g)))
      as (_ & _ & Ht); simpl; rewrite ?app_nil_r, ?Hw; auto.
    simpl in Ht. rewrite app_nil_r, Hw in Ht. exact Ht.
  - rewrite !cartesian_addWaypoints_eq.
    split; [simpl; now rewrite app_assoc|].
    split; [reflexivity|].
    split; [unfold Cartesian.clearWaypoints; simpl;
            now rewrite !cartesian_pop_all_nil|].
    split; [simpl; now rewrite app_nil_r; destruct g|].
    intros rs period Hf Hw.
    destruct (cartesian_step_loads rs period
                (Cartesian.set_reload_ true
                   (Cartesian.set_waypoints_
                      (Cartesian.waypoints_ g ++ []) g)))
      as (_ & _ & Ht); simpl; rewrite ?app_nil_r, ?Hw; auto.
    simpl in Ht. rewrite app_nil_r, Hw in Ht. exact Ht.
Qed.


(** X4: every call of [step], on a running generator as on a finished one
    and whatever the loop does, advances the generator's clock by the period
    in seconds and leaves the robot state of the tick in the session
    object. *)
Theorem X4_step_advances_clock :
  (forall (g : Joint.t) rs period,
      Joint.time_ (fst (Joint.step rs period g))
      = (Joint.time_ g + franka.Duration.toSec period)%float
      /\ Joint.panda_ (fst (Joint.step rs period g))
         = Panda._setState rs (Joint.panda_ g))
  /\ (forall (g : Cartesian.t) rs period,
      Cartesian.time_ (fst (Cartesian.step rs period g))
      = (Cartesian.time_ g + franka.Duration.toSec period)%float
      /\ Cartesian.panda_ (fst (Cartesian.step rs period g))
         = Panda._setState rs (Cartesian.panda_ g)).
Proof.
  split; intros g rs period.
  - apply joint_step_session.
  - apply cartesian_step_session.
Qed.

(** X5: a generator whose finished flag is set does nothing but count down.
    Until [start] is called again, whatever else is called (enqueuing,
    clearing, [stop], ticks), the solver is not called, no waypoint is
    loaded and the flag stays set; a tick leaves the queue and the reload
    flag alone. *)
Theorem X5_finished_generator_is_inert :
  (forall (g : Joint.t) acts,
      Joint.motion_finished_ g = true ->
      Forall (fun a => Joint.is_start a = false) acts ->
      let g' := fst (Joint.run acts g) in
      Joint.isRunning g' = false
      /\ Joint.current_waypoint_ g' = Joint.current_waypoint_ g
      /\ Joint.trajectory_generator_ g' = Joint.trajectory_generator_ g
      /\ Joint.input_para_ g' = Joint.input_para_ g
      /\ Joint.output_para_ g' = Joint.output_para_ g
      /\ Joint.result g' = Joint.result g)
  /\ (forall (g : Joint.t) rs period,
      Joint.motion_finished_ g = true ->
      Joint.waypoints_ (fst (Joint.step rs period g)) = Joint.waypoints_ g
      /\ Joint.reload_ (fst (Joint.step rs period g)) = Joint.reload_ g)
  /\ (forall (g : Cartesian.t) acts,
      Cartesian.motion_finished_ g = true ->
      Forall (fun a => Cartesian.is_start a = false) acts ->
      let g' := fst (Cartesian.run acts g) in
      Cartesian.isRunning g' = false
      /\ Cartesian.current_waypoint_ g' = Cartesian.current_waypoint_ g
      /\ Cartesian.trajectory_generator_ g'
         = Cartesian.trajectory_generator_ g
      /\ Cartesian.input_para_ g' = Cartesian.input_para_ g
      /\ Cartesian.output_para_ g' = Cartesian.output_para_ g
      /\ Cartesian.result g' = Cartesian.result g)
  /\ (forall (g : Cartesian.t) rs period,
      Cartesian.motion_finished_ g = true ->
      Cartesian.waypoints_ (fst (Cartesian.step rs period g))
      = Cartesian.waypoints_ g
      /\ Cartesian.reload_ (fst (Cartesian.step rs period g))
         = Cartesian.reload_ g).
Proof.
  split; [|split; [|split]].
  - intros g acts Hf Hs. cbv zeta.
    destruct (joint_finished_run acts g Hf Hs) as (H1 & H2).
    split; [unfold Joint.isRunning; now rewrite H1 | exact H2].
  - intros g rs period Hf.
    destruct (joint_finished_step rs period g Hf)
      as (_ & Hw & _ & _ & _ & _ & _ & Hr). now split.
  - intros g acts Hf Hs. cbv zeta.
    destruct (cartesian_finished_run acts g Hf Hs) as (H1 & H2).
    split; [unfold Cartesian.isRunning; now rewrite H1 | exact H2].
  - intros g rs period Hf.
    destruct (cartesian_finished_step rs period g Hf)
      as (_ & Hw & _ & _ & _ & _ & _ & Hr). now split.
Qed.

(** X6: what a running generator returns.  The joint generator always wraps
    the solver's latest [new_position], in a plain command as in the
    sentinel.  The Cartesian generator returns the pose built from the
    solver's latest output, plain or as the sentinel, except when the solver
    reported an error: then the sentinel wraps the commanded pose of the
    robot state. *)
Theorem X6_running_command_is_solver_output :
  (forall (g : Joint.t) rs period,
      Joint.motion_finished_ g = false ->
      franka.JointPositions.q (snd (Joint.step rs period g))
      = ruckig.new_position
          (Joint.output_para_ (fst (Joint.step rs period g))))
  /\ (forall (g : Cartesian.t) rs period,
      Cartesian.motion_finished_ g = false ->
      let r := Cartesian.step rs period g in
      snd r = Cartesian.getPoseFromOutput rs (Cartesian.output_para_ (fst r))
      \/ snd r = franka.CartesianPose.MotionFinished
                   (Cartesian.getPoseFromOutput rs
                      (Cartesian.output_para_ (fst r)))
      \/ (ruckig.is_error (Cartesian.result (fst r)) = true
          /\ snd r = franka.CartesianPose.MotionFinished
                       (franka.CartesianPose.make
                          (franka.RobotState.O_T_EE_c rs)))).
Proof.
  split; intros g rs period Hf; cbv zeta.
  - rewrite (joint_step_running rs period g Hf). apply joint_step_loop_wraps.
  - rewrite (cartesian_step_running rs period g Hf).
    apply cartesian_step_loop_wraps.
Qed.

(** X7: output-to-input pass-through.  When a tick of a running generator
    returns a plain command and is not in the cooldown of a natural
    completion, the solver's input for the next tick starts from the
    position, velocity and acceleration the solver has just put out. *)
Theorem X7_output_is_passed_to_input :
  (forall (g : Joint.t) rs period,
      Joint.motion_finished_ g = false ->
      franka.JointPositions.motion_finished (snd (Joint.step rs period g))
      = false ->
      Joint.at_completion (fst (Joint.step rs period g)) = false ->
      Joint.passed_through (fst (Joint.step rs period g)))
  /\ (forall (g : Cartesian.t) rs period,
      Cartesian.motion_finished_ g = false ->
      franka.CartesianPose.motion_finished
        (snd (Cartesian.step rs period g)) = false ->
      Cartesian.at_completion (fst (Cartesian.step rs period g)) = false ->
      Cartesian.passed_through (fst (Cartesian.step rs period g))).
Proof.
  split; intros g rs period Hf.
  - rewrite (joint_step_running rs period g Hf).
    destruct (joint_steps_of_pos period) as [k ->].
    apply joint_step_loop_pass. discriminate.
  - rewrite (cartesian_step_running rs period g Hf).
    destruct (cartesian_steps_of_pos period) as [k ->].
    apply cartesian_step_loop_pass. discriminate.
Qed.

(** X8: a tick never adds to the queue and never reorders it: what is left
    after [step] is the queue without its first [k] waypoints, where [k] is
    at most the number of sub-steps of the tick. *)
Theorem X8_step_pops_a_prefix :
  (forall (g : Joint.t) rs period,
      exists k, (k <= Z.to_nat (Joint.steps_of period))%nat
                /\ Joint.waypoints_ (fst (Joint.step rs period g))
                   = skipn k (Joint.waypoints_ g))
  /\ (forall (g : Cartesian.t) rs period,
      exists k, (k <= Z.to_nat (Cartesian.steps_of period))%nat
                /\ Cartesian.waypoints_ (fst (Cartesian.step rs period g))
                   = skipn k (Cartesian.waypoints_ g)).
Proof.
  split; intros g rs period.
  - destruct (Joint.motion_finished_ g) eqn:Hf.
    + exists O. split; [lia|].
      now destruct (joint_finished_step rs period g Hf) as (_ & -> & _).
    + rewrite (joint_step_running rs period g Hf).
      apply (joint_step_loop_pops _ rs (Joint.tick rs period g)).
  - destruct (Cartesian.motion_finished_ g) eqn:Hf.
    + exists O. split; [lia|].
      now destruct (cartesian_finished_step rs period g Hf) as (_ & -> & _).
    + rewrite (cartesian_step_running rs period g Hf).
      apply (cartesian_step_loop_pops _ rs (Cartesian.tick rs period g)).
Qed.

(** X9: the cooldown counter only grows and never passes the budget: from a
    counter of at most 5 (a constructed generator has 0), no sequence of
    calls brings it below its value or above 5, so the [size_t] never wraps.
    No call changes [keep_running_]. *)
Theorem X9_cooldown_counter_is_monotone_and_bounded :
  (forall (g : Joint.t) acts,
      (Joint.current_cooldown_iteration g <= Joint.cooldown_iterations)%N ->
      (Joint.current_cooldown_iteration g
       <= Joint.current_cooldown_iteration (fst (Joint.run acts g))
       <= Joint.cooldown_iterations)%N
      /\ Joint.keep_running_ (fst (Joint.run acts g)) = Joint.keep_running_ g)
  /\ (forall (g : Cartesian.t) acts,
      (Cartesian.current_cooldown_iteration g
       <= Cartesian.cooldown_iterations)%N ->
      (Cartesian.current_cooldown_iteration g
       <= Cartesian.current_cooldown_iteration (fst (Cartesian.run acts g))
       <= Cartesian.cooldown_iterations)%N
      /\ Cartesian.keep_running_ (fst (Cartesian.run acts g))
         = Cartesian.keep_running_ g).
Proof.
  split; intros g acts Hc.
  - now apply joint_run_counter_bounds.
  - now apply cartesian_run_counter_bounds.
Qed.

(** X10: the generators only ever ask the solver for targets at rest: from
    [start] on, through any sequence of calls, the target velocity and the
    target acceleration in the solver's input are zero. *)
Theorem X10_targets_are_at_rest :
  (forall (g : Joint.t) robot rs acts,
      Joint.at_rest (fst (Joint.run acts (Joint.start robot rs g))))
  /\ (forall (g : Cartesian.t) robot rs acts,
      Cartesian.at_rest
        (fst (Cartesian.run acts (Cartesian.start robot rs g)))).
Proof.
  split; intros g robot rs acts.
  - apply joint_run_at_rest. split; reflexivity.
  - apply cartesian_run_at_rest. split; reflexivity.
Qed.

(** X11: a GLOBAL waypoint is loaded as the pose it carries, whatever the
    robot state of the tick that loads it: with that waypoint alone in the
    queue and a reload pending, the tick leaves it loaded with the target
    built from its own pose, and two robot states give the same solver
    input. *)
Theorem X11_global_target_ignores_robot_state :
  forall (g : Cartesian.t) rs rs' period b,
    Cartesian.motion_finished_ g = false ->
    Cartesian.reload_ g = true ->
    Cartesian.waypoints_ g = [b] ->
    CartesianMotion.reference_frame b = ReferenceFrame.GLOBAL ->
    Cartesian.current_waypoint_ (fst (Cartesian.step rs period g)) = Some b
    /\ ruckig.target_position
         (Cartesian.input_para_ (fst (Cartesian.step rs period g)))
       = Cartesian.target_vector (CartesianMotion.target b)
    /\ Cartesian.setInputTarget rs b g = Cartesian.setInputTarget rs' b g.
Proof.
  intros g rs rs' period b Hf Hr Hw Hglobal.
  destruct (cartesian_step_loads rs period g Hf Hr) as (_ & Hc & Ht);
    [now rewrite Hw|].
  rewrite Hw in Hc, Ht. simpl in Hc, Ht.
  unfold Cartesian.resolve in Ht. rewrite Hglobal in Ht. simpl in Ht.
  repeat split; auto.
  unfold Cartesian.setInputTarget, Cartesian.resolve.
  now rewrite Hglobal.
Qed.

(** X12: a tick consumes every reload request.  After [step] on a running
    generator the reload flag is set only when the last solver call of the
    tick said [Finished] with waypoints still queued, and the command of
    such a tick is a plain one. *)
Theorem X12_reload_pending_means_segment_finished :
  (forall (g : Joint.t) rs period,
      Joint.motion_finished_ g = false ->
      Joint.reload_ (fst (Joint.step rs period g)) = true ->
      Joint.result (fst (Joint.step rs period g)) = ruckig.Finished
      /\ Joint.waypoints_ (fst (Joint.step rs period g)) <> []
      /\ franka.JointPositions.motion_finished
           (snd (Joint.step rs period g)) = false)
  /\ (forall (g : Cartesian.t) rs period,
      Cartesian.motion_finished_ g = false ->
      Cartesian.reload_ (fst (Cartesian.step rs period g)) = true ->
      Cartesian.result (fst (Cartesian.step rs period g)) = ruckig.Finished
      /\ Cartesian.waypoints_ (fst (Cartesian.step rs period g)) <> []
      /\ franka.CartesianPose.motion_finished
           (snd (Cartesian.step rs period g)) = false).
Proof.
  split; intros g rs period Hf.
  - rewrite (joint_step_running rs period g Hf).
    destruct (joint_steps_of_pos period) as [k ->].
    apply joint_step_loop_reload. discriminate.
  - rewrite (cartesian_step_running rs period g Hf).
    destruct (cartesian_steps_of_pos period) as [k ->].
    apply cartesian_step_loop_reload. discriminate.
Qed.

(** X13: the pose command.  [getPoseFromOutput] returns a plain command of
    16 numbers which, read back as a transform, has the solver's first three
    outputs as its translation, the rotation matrix of the normalised
    quaternion made of the other four (x, y, z, w) as its rotation block,
    and the last row of the commanded pose of the robot state.  Reading 16
    numbers as a transform and writing the transform back gives the same 16
    numbers. *)
Theorem X13_pose_command_layout :
  (forall rs out,
      let c := Cartesian.getPoseFromOutput rs out in
      let np := ruckig.new_position out in
      franka.CartesianPose.motion_finished c = false
      /\ length (franka.CartesianPose.O_T_EE c) = 16%nat
      /\ Eigen.translation (Eigen.Map (franka.CartesianPose.O_T_EE c))
         = Eigen.vec3 (Eigen.at_ np 0) (Eigen.at_ np 1) (Eigen.at_ np 2)
      /\ Eigen.linear (Eigen.Map (franka.CartesianPose.O_T_EE c))
         = Eigen.toRotationMatrix
             (Eigen.normalize
                (Eigen.quat (Eigen.at_ np 3) (Eigen.at_ np 4)
                            (Eigen.at_ np 5) (Eigen.at_ np 6)))
      /\ Eigen.last_row (Eigen.Map (franka.CartesianPose.O_T_EE c))
         = Eigen.last_row (Eigen.Map (franka.RobotState.O_T_EE_c rs)))
  /\ (forall d : list float,
      length d = 16%nat -> Eigen.matrix (Eigen.Map d) = d).
Proof.
  split.
  - intros rs out. cbv zeta. unfold Cartesian.getPoseFromOutput. simpl.
    repeat split.
    destruct (Eigen.toRotationMatrix _). reflexivity.
  - intros d Hd.
    do 16 (destruct d as [|? d]; [discriminate Hd|]).
    destruct d; [reflexivity | discriminate Hd].
Qed.

End Further.

(** * Concrete runs of the further properties *)

(** X1 on three periods: 3 ms, 0 ms and 2^31 ms. *)
Lemma X1_witness :
  Joint.steps_of (franka.Duration.mk 3) = 3
  /\ Joint.steps_of (franka.Duration.mk 0) = 1
  /\ Joint.steps_of (franka.Duration.mk (2 ^ 31)) = 1.
Proof.
  split; [|split].
  - apply (proj1 (proj2 (proj2 (X1_sub_step_count (franka.Duration.mk 3))))).
    simpl. lia.
  - apply (proj1 (proj2 (proj2 (X1_sub_step_count (franka.Duration.mk 0))))).
    simpl. lia.
  - apply (proj2 (proj2 (proj2 (X1_sub_step_count
                                  (franka.Duration.mk (2 ^ 31)))))).
    simpl. lia.
Defined.

(** X2 on a joint generator in flight towards 1 with nothing queued: an
    empty [addWaypoints] makes the next tick hold at the commanded 0.25. *)
Lemma X2_witness :
  let g := fst (@Joint.step Demo.solver Demo.limits (Demo.rs_at 0)
                            Demo.period1
                            (Joint.addWaypoint (Demo.jw 1)
                                               Demo.joint_started)) in
  ruckig.target_position (Joint.input_para_ g) = repeat 1%float 7
  /\ ruckig.target_position
       (Joint.input_para_
          (fst (@Joint.step Demo.solver Demo.limits (Demo.rs_at 0.25)
                            Demo.period1 (Joint.addWaypoints [] g))))
     = franka.RobotState.q_d (Demo.rs_at 0.25).
Proof.
  cbv zeta. split; [vm_compute; reflexivity|].
  refine (proj2 (proj2 (proj2 (proj2
            (proj1 (@X2_enqueuing_composes
                      Demo.solver Demo.limits Demo.geometry)
                   [] [] (Demo.jw 1) _)))) _ _ _ _);
    vm_compute; reflexivity.
Defined.


(** X5 on the generator in flight, stopped: waypoints are queued and
    cleared and ticks go by, and the solver's input is what it was. *)
Lemma X5_witness :
  let g := Joint.stop Demo.joint_midflight in
  let g' := fst (@Joint.run Demo.solver Demo.limits
                   (Joint.AddWaypoint (Demo.jw 3)
                    :: Joint.ticks_only (Demo.ticks_at 0.25 3)
                       ++ Joint.ClearWaypoints
                          :: Joint.ticks_only (Demo.ticks_at 0.25 4))
                   g) in
  Joint.isRunning g' = false
  /\ Joint.current_waypoint_ g' = Joint.current_waypoint_ g
  /\ Joint.trajectory_generator_ g' = Joint.trajectory_generator_ g
  /\ Joint.input_para_ g' = Joint.input_para_ g
  /\ Joint.output_para_ g' = Joint.output_para_ g
  /\ Joint.result g' = Joint.result g.
Proof.
  cbv zeta.
  apply (proj1 (@X5_finished_generator_is_inert
                  Demo.solver Demo.limits Demo.geometry)).
  - reflexivity.
  - repeat constructor.
Defined.

(** X6 and X7 on the next tick of the generator in flight. *)
Lemma X6_witness :
  let r := @Joint.step Demo.solver Demo.limits (Demo.rs_at 0.25)
                       Demo.period1 Demo.joint_midflight in
  franka.JointPositions.q (snd r)
  = ruckig.new_position (Joint.output_para_ (fst r)).
Proof.
  cbv zeta.
  apply (proj1 (@X6_running_command_is_solver_output
                  Demo.solver Demo.limits Demo.geometry)).
  reflexivity.
Defined.

Lemma X7_witness :
  let r := @Joint.step Demo.solver Demo.limits (Demo.rs_at 0.25)
                       Demo.period1 Demo.joint_midflight in
  Joint.passed_through (fst r).
Proof.
  cbv zeta.
  apply (proj1 (@X7_output_is_passed_to_input
                  Demo.solver Demo.limits Demo.geometry));
    vm_compute; reflexivity.
Defined.

(** X9 on a full cycle of a constructed generator. *)
Lemma X9_witness :
  let g := Demo.joint_new false in
  let g' := fst (@Joint.run Demo.solver Demo.limits
                   (Joint.Start Demo.robot (Demo.rs_at 0) :: Joint.Stop
                    :: Joint.ticks_only (Demo.ticks_at 0 8))
                   g) in
  (Joint.current_cooldown_iteration g
   <= Joint.current_cooldown_iteration g'
   <= Joint.cooldown_iterations)%N
  /\ Joint.keep_running_ g' = Joint.keep_running_ g.
Proof.
  cbv zeta.
  apply (proj1 (@X9_cooldown_counter_is_monotone_and_bounded
                  Demo.solver Demo.limits Demo.geometry)).
  vm_compute. discriminate.
Defined.

(** X11 on a GLOBAL waypoint at x = 1, loaded with the robot at 0. *)
Lemma X11_witness :
  let g := Demo.cartesian_one_queued in
  let g' := fst (@Cartesian.step Demo.solver Demo.limits Demo.geometry
                                 (Demo.rs_at 0) Demo.period1 g) in
  Cartesian.current_waypoint_ g' = Some Demo.cw_first
  /\ ruckig.target_position (Cartesian.input_para_ g')
     = @Cartesian.target_vector Demo.geometry
         (CartesianMotion.target Demo.cw_first)
  /\ @Cartesian.setInputTarget Demo.solver Demo.limits Demo.geometry
       (Demo.rs_at 0) Demo.cw_first g
     = @Cartesian.setInputTarget Demo.solver Demo.limits Demo.geometry
         (Demo.rs_at 0.5) Demo.cw_first g.
Proof.
  cbv zeta.
  exact (@X11_global_target_ignores_robot_state
           Demo.solver Demo.limits Demo.geometry
           Demo.cartesian_one_queued (Demo.rs_at 0) (Demo.rs_at 0.5)
           Demo.period1 Demo.cw_first eq_refl eq_refl eq_refl eq_refl).
Defined.

(** X12 on two queued waypoints of which the first is where the robot is:
    the first tick finds that segment finished and asks for a reload. *)
Lemma X12_witness :
  let r := @Joint.step Demo.solver Demo.limits (Demo.rs_at 0) Demo.period1
                       Demo.joint_two_queued in
  Joint.result (fst r) = ruckig.Finished
  /\ Joint.waypoints_ (fst r) <> []
  /\ franka.JointPositions.motion_finished (snd r) = false.
Proof.
  cbv zeta.
  apply (proj1 (@X12_reload_pending_means_segment_finished
                  Demo.solver Demo.limits Demo.geometry));
    vm_compute; reflexivity.
Defined.

(** X13 on the pose at (1, 2, 3). *)
Lemma X13_witness :
  Eigen.matrix (Eigen.Map (Demo.pose_at 1 2 3)) = Demo.pose_at 1 2 3.
Proof.
  apply (proj2 (@X13_pose_command_layout Demo.geometry)). reflexivity.
Defined.
